(** * ms2rescore: configuration resolution and orchestrator pre-flight

    A shallow embedding of [ms2rescore/config_parser.py] and of [main] in
    [ms2rescore/__init__.py].

    Python values are a small inductive type; a [dict] is an association
    list kept in insertion order (the order [items()] iterates in);
    exceptions are an inductive type carried by an error-and-state monad
    whose state is the file system together with the trace of the I/O
    performed so far.  Text is modelled as byte strings of ASCII text, and
    [str.lower] acts on the letters A-Z.  Floating-point numbers are not
    represented. *)

From Stdlib Require Import ZArith Lia List String Ascii Bool NArith.
From Stdlib Require Import DecimalString.
Import ListNotations.
Open Scope string_scope.
Open Scope Z_scope.

(** ** Python values *)

#[warnings="-register-all"]
Inductive value : Type :=
| VNone
| VBool (b : bool)
| VInt (z : Z)
| VStr (s : string)
| VList (l : list value)
| VDict (d : list (string * value)).

Definition dict := list (string * value).

(** Truth value of an object, as [if x:] and [not x] test it. *)
Definition truthy (v : value) : bool :=
  match v with
  | VNone => false
  | VBool b => b
  | VInt z => negb (z =? 0)
  | VStr s => negb (s =? "")%string
  | VList l => match l with [] => false | _ => true end
  | VDict d => match d with [] => false | _ => true end
  end.

Definition is_none (v : value) : bool :=
  match v with VNone => true | _ => false end.

(** ** Dictionaries in insertion order *)

Fixpoint lookup (k : string) (d : dict) : option value :=
  match d with
  | [] => None
  | (k', v) :: d' => if (k' =? k)%string then Some v else lookup k d'
  end.

(** [d[k] = v]: an existing key keeps its position, a new key goes last. *)
Fixpoint dict_set (k : string) (v : value) (d : dict) : dict :=
  match d with
  | [] => [(k, v)]
  | (k', v') :: d' =>
      if (k' =? k)%string then (k', v) :: d' else (k', v') :: dict_set k v d'
  end.

Definition keys (d : dict) : list string := map fst d.

(** ** Strings *)

Definition ascii_lower (c : ascii) : ascii :=
  let n := N_of_ascii c in
  if ((65 <=? n) && (n <=? 90))%N then ascii_of_N (n + 32) else c.

(** [s.lower()] *)
Fixpoint lower (s : string) : string :=
  match s with
  | EmptyString => EmptyString
  | String c s' => String (ascii_lower c) (lower s')
  end.

Definition is_lower (s : string) : Prop := lower s = s.

(** [a.lower() == b.lower()] *)
Definition eq_nocase (a b : string) : Prop := lower a = lower b.

(** [needle in hay] *)
Fixpoint contains (needle hay : string) : bool :=
  if prefix needle hay then true
  else match hay with
       | EmptyString => false
       | String _ hay' => contains needle hay'
       end.

(** [s.split(sep)] for a one-character separator. *)
Fixpoint split_on (sep : ascii) (s : string) : list string :=
  match s with
  | EmptyString => [EmptyString]
  | String c s' =>
      if Ascii.eqb c sep then EmptyString :: split_on sep s'
      else match split_on sep s' with
           | [] => [String c EmptyString]
           | w :: ws => String c w :: ws
           end
  end.

Fixpoint join (sep : string) (l : list string) : string :=
  match l with
  | [] => ""
  | [w] => w
  | w :: ws => w ++ sep ++ join sep ws
  end.

(** Index of the last occurrence of [c] in [s], as [s.rfind(c)]. *)
Fixpoint rfind (c : ascii) (s : string) : option nat :=
  match s with
  | EmptyString => None
  | String c' s' =>
      match rfind c s' with
      | Some i => Some (S i)
      | None => if Ascii.eqb c' c then Some O else None
      end
  end.

(** [str(z)] and the [{}] formatting of an integer. *)
Definition str_of_Z (z : Z) : string := NilZero.string_of_int (Z.to_int z).

(** ** Paths ([pathlib.PurePosixPath])

    A path is its anchor and its components: [Path(s)] drops empty and
    [.] components, so that [str(Path(s))] is the normalised spelling.
    (The anchor [//] is not told apart from [/].) *)

Record Path : Type := mkPath { anchored : bool; parts : list string }.

Definition path_of (s : string) : Path :=
  {| anchored := prefix "/" s;
     parts := filter (fun w => negb ((w =? "") || (w =? "."))%string)
                     (split_on "/"%char s) |}.

Definition path_str (p : Path) : string :=
  match parts p with
  | [] => if anchored p then "/" else "."
  | _ => (if anchored p then "/" else "") ++ join "/" (parts p)
  end.

Definition path_parent (p : Path) : Path :=
  {| anchored := anchored p; parts := removelast (parts p) |}.

Definition path_name (p : Path) : string := last (parts p) "".

(** [PurePath.suffix]: from the last dot of the name on, unless that dot
    is the first or the last character of the name. *)
Definition path_suffix (p : Path) : string :=
  let name := path_name p in
  match rfind "."%char name with
  | Some i =>
      if (Nat.ltb 0 i && Nat.ltb i (String.length name - 1))%bool
      then substring i (String.length name - i) name
      else ""
  | None => ""
  end.

(** The non-empty prefixes of a list of components, shortest first. *)
Fixpoint prefixes (ps : list string) : list (list string) :=
  match ps with
  | [] => []
  | w :: ws => [w] :: map (cons w) (prefixes ws)
  end.

(** A path and the ancestors [mkdir(parents=True)] may have to create,
    outermost first. *)
Definition path_chain (p : Path) : list Path :=
  map (mkPath (anchored p)) (prefixes (parts p)).

(** ** Exceptions *)

Inductive exn : Type :=
| MS2RescoreConfigurationError (msg : string)
| FileNotFoundError (path : string)
| FileExistsError (path : string)
| NotADirectoryError (path : string)
| IsADirectoryError (path : string)
| PermissionError (path : string)
| ValueError (msg : string)
| KeyError (key : string)
| TypeError
| AttributeError
| ParseError (path : string)
| CalledProcessError (cmd : string)
| SystemExit (code : Z).

Definition is_configuration_error (e : exn) : bool :=
  match e with MS2RescoreConfigurationError _ => true | _ => false end.

Definition is_not_found_error (e : exn) : bool :=
  match e with FileNotFoundError _ => true | _ => false end.

(** ** The file system and the I/O trace *)

Record filesystem : Type := mkFs { files : list string; dirs : list string }.

Definition mem (s : string) (l : list string) : bool :=
  existsb (String.eqb s) l.

Inductive io : Type :=
| IoOpen (path : string)
| IoIsFile (path : string)
| IoExists (path : string)
| IoIsDir (path : string)
| IoMkdir (path : string).


(** Whether an I/O event is one of the file-name checks of
    [_validate_filenames]. *)
Definition is_path_check (e : io) : bool :=
  match e with IoOpen _ => false | _ => true end.

Record world : Type := mkWorld { fs : filesystem; trace : list io }.

(** ** Computations that may raise and that thread a state *)

Definition Eff (S A : Type) : Type := S -> (exn + A) * S.

Definition ret {S A} (a : A) : Eff S A := fun w => (inr a, w).
Definition raise {S A} (e : exn) : Eff S A := fun w => (inl e, w).
Definition bind {S A B} (m : Eff S A) (f : A -> Eff S B) : Eff S B :=
  fun w => match m w with
           | (inl e, w') => (inl e, w')
           | (inr a, w') => f a w'
           end.
Definition lift {S A} (r : exn + A) : Eff S A := fun w => (r, w).

(** The computations of [config_parser.py] run in the world. *)
Definition M (A : Type) : Type := Eff world A.

Definition emit (e : io) : M unit :=
  fun w => (inr tt, {| fs := fs w; trace := trace w ++ [e] |}).
Definition get_fs : M filesystem := fun w => (inr (fs w), w).
Definition put_fs (f : filesystem) : M unit :=
  fun w => (inr tt, {| fs := f; trace := trace w |}).

Declare Scope py_scope.
Delimit Scope py_scope with py.
Notation "x <- m ;; k" := (bind m (fun x => k))
  (at level 61, m at next level, right associativity) : py_scope.
Notation "m ;;; k" := (bind m (fun _ => k))
  (at level 61, right associativity) : py_scope.
Open Scope py_scope.

(** [Path.is_file()], [Path.exists()], [Path.is_dir()] *)
Definition is_file (p : Path) : M bool :=
  emit (IoIsFile (path_str p)) ;;;
  f <- get_fs ;; ret (mem (path_str p) (files f)).

Definition path_exists (p : Path) : M bool :=
  emit (IoExists (path_str p)) ;;;
  f <- get_fs ;;
  ret (mem (path_str p) (files f) || mem (path_str p) (dirs f))%bool.

Definition is_dir (p : Path) : M bool :=
  emit (IoIsDir (path_str p)) ;;;
  f <- get_fs ;; ret (mem (path_str p) (dirs f)).

(** [Path.mkdir(parents=True, exist_ok=True)]: an existing directory is
    left alone, a file in the way is an error, and the missing ancestors
    are created with the directory. *)
Definition mkdir_parents (p : Path) : M unit :=
  emit (IoMkdir (path_str p)) ;;;
  f <- get_fs ;;
  match filter (fun a => mem a (files f)) (map path_str (path_chain p)) with
  | a :: _ =>
      if (a =? path_str p)%string then raise (FileExistsError a)
      else raise (NotADirectoryError a)
  | [] =>
      put_fs {| files := files f;
                dirs := dirs f
                        ++ filter (fun a => negb (mem a (dirs f)))
                             (map path_str (path_chain p)) |}
  end.

(** ** Item access *)

(** [v[k]] *)
Definition getitem (v : value) (k : string) : exn + value :=
  match v with
  | VDict d => match lookup k d with
               | Some x => inr x
               | None => inl (KeyError k)
               end
  | _ => inl TypeError
  end.

(** [v[s][k]] *)
Definition getitem2 (v : value) (s k : string) : exn + value :=
  match getitem v s with
  | inr sec => getitem sec k
  | inl e => inl e
  end.

(** [v[s][k] = x] *)
Definition setitem2 (v : value) (s k : string) (x : value) : exn + value :=
  match v with
  | VDict d =>
      match lookup s d with
      | Some (VDict sec) => inr (VDict (dict_set s (VDict (dict_set k x sec)) d))
      | Some _ => inl TypeError
      | None => inl (KeyError s)
      end
  | _ => inl TypeError
  end.

(** [Path(v)]: only text names a path. *)
Definition to_path (v : value) : exn + Path :=
  match v with
  | VStr s => inr (path_of s)
  | _ => inl TypeError
  end.

(** ** The host and the package data *)

(** What the surrounding system provides: [multiprocessing.cpu_count()]
    and the readers of configuration documents ([json.load] and
    [tomlkit.load] on the opened file), which yield a mapping or raise. *)
Record host : Type := mkHost {
  cpu_count : Z;
  json_file : string -> exn + dict;
  toml_file : string -> exn + dict
}.

(** Modelled from the spec: the files [package_data/config_schema.json]
    and [package_data/config_default.json] are missing.  The schema is
    taken as the check it performs on a resolved mapping, answering the
    offending key of a mapping it rejects; the defaults as the mapping
    they hold. *)
Record package_data : Type := mkPackageData {
  config_schema : value -> option string;
  config_default : dict
}.

(** ** Cascading resolution *)

(** Modelled from the spec: the sources of [CascadeConfig] are missing.
    One per kind of configuration the loop of [parse_configurations]
    adds: a mapping, a JSON document by its file name, and an argument
    bundle with the subkey its attributes go under. *)
Inductive source : Type :=
| DictConfigSource (d : dict)
| JSONConfigSource (filename : string)
| NamespaceConfigSource (attrs : dict) (subkey : string).

(** Modelled from the spec: the class [CascadeConfig] of the package
    [cascade_config] is missing.  A cascade holds its schema, its two
    options and the sources added so far, in the order they were added. *)
Record CascadeConfig : Type := mkCascadeConfig {
  validation_schema : value -> option string;
  none_overrides_value : bool;
  max_recursion_depth : nat;
  sources : list source
}.

Definition add_source (cc : CascadeConfig) (s : source) : CascadeConfig :=
  {| validation_schema := validation_schema cc;
     none_overrides_value := none_overrides_value cc;
     max_recursion_depth := max_recursion_depth cc;
     sources := sources cc ++ [s] |}.

Definition add_dict (cc : CascadeConfig) (d : dict) : CascadeConfig :=
  add_source cc (DictConfigSource d).

Definition add_json (cc : CascadeConfig) (filename : string) : CascadeConfig :=
  add_source cc (JSONConfigSource filename).

Definition add_namespace (cc : CascadeConfig) (attrs : dict) (subkey : string)
  : CascadeConfig :=
  add_source cc (NamespaceConfigSource attrs subkey).

(** Whether a mapping has a key. *)
Definition has_key (k : string) (d : dict) : bool :=
  match lookup k d with Some _ => true | None => false end.

(** [k in o] for a value [o] that is not a mapping: a part of a text, an
    element of a list, a type error otherwise. *)
Definition py_in (k : string) (o : value) : exn + bool :=
  match o with
  | VStr s => inr (contains k s)
  | VList l =>
      inr (existsb (fun x => match x with
                             | VStr s => (s =? k)%string
                             | _ => false
                             end) l)
  | VDict d => inr (has_key k d)
  | _ => inl TypeError
  end.

(** Modelled from the spec: the merge of [CascadeConfig] is missing.
    This is the merge met with a value [o] that is not a mapping where
    the later source has a mapping: every entry that would be written
    fails, since [o] takes no item; an entry that is skipped (a false
    value whose key is found in [o]) leaves [o] as it is. *)
Fixpoint update_non_mapping (none_overrides : bool) (levels : nat)
  (o : value) (updater : dict) : exn + value :=
  match updater with
  | [] => inr o
  | (k, v) :: rest =>
      match v with
      | VDict [] => inl TypeError
      | VDict _ =>
          match levels with
          | O => inl TypeError
          | S _ => inl AttributeError
          end
      | VBool _ => inl TypeError
      | _ =>
          if truthy v then inl TypeError
          else
            match py_in k o with
            | inl e => inl e
            | inr false => inl TypeError
            | inr true =>
                if none_overrides then inl TypeError
                else update_non_mapping none_overrides levels o rest
            end
      end
  end.

(** The entries of a later mapping taken one by one, each by [step],
    until one fails. *)
Fixpoint fold_merge (step : dict -> string -> value -> exn + dict)
  (updater original : dict) : exn + dict :=
  match updater with
  | [] => inr original
  | (k, v) :: rest =>
      match step original k v with
      | inl e => inl e
      | inr original' => fold_merge step rest original'
      end
  end.

(** Modelled from the spec: the merge of [CascadeConfig] is missing.  A
    later source is merged into the accumulated mapping key by key, as
    the package [cascade_config] does it.  A later mapping that is empty
    replaces what was there by an empty mapping; one that is not empty
    is merged into the earlier value, for [levels] more levels, and
    below that replaces it whole.  For a key that is not there yet the
    package merges the later mapping into an empty one; the keys of a
    Python dict being distinct, that gives the later mapping itself
    ([update_disjoint] below), which is what is written here.  A later
    truth value always overrides.  Any other later value overrides
    when it is true or when the key is not there yet: null, zero, the
    empty text and the empty list leave an earlier value alone (unless
    [none_overrides]). *)
Fixpoint update_dict_recursively (none_overrides : bool) (levels : nat)
  (original updater : dict) {struct levels} : exn + dict :=
  fold_merge
    (fun orig k v =>
       match v with
       | VDict [] => inr (dict_set k (VDict []) orig)
       | VDict dv =>
           match levels with
           | O => inr (dict_set k v orig)
           | S levels' =>
               match lookup k orig with
               | None => inr (dict_set k v orig)
               | Some (VDict dorig) =>
                   match update_dict_recursively none_overrides levels'
                           dorig dv with
                   | inl e => inl e
                   | inr merged => inr (dict_set k (VDict merged) orig)
                   end
               | Some o =>
                   match update_non_mapping none_overrides levels' o dv with
                   | inl e => inl e
                   | inr o' => inr (dict_set k o' orig)
                   end
               end
           end
       | VBool _ => inr (dict_set k v orig)
       | _ =>
           if (truthy v || negb (has_key k orig))%bool
           then inr (dict_set k v orig)
           else if none_overrides then inr (dict_set k v orig)
           else inr orig
       end)
    updater original.

(** Modelled from the spec: the adapters of [CascadeConfig] are missing.
    A mapping is passed through, a JSON document is read, and the
    attributes of an argument bundle are placed under its subkey. *)
Definition load (h : host) (s : source) : M dict :=
  match s with
  | DictConfigSource d => ret d
  | JSONConfigSource f => emit (IoOpen f) ;;; lift (json_file h f)
  | NamespaceConfigSource attrs subkey => ret [(subkey, VDict attrs)]
  end.

(** The sources merged in the order they were added, each into what the
    ones before it gave. *)
Fixpoint cascade (h : host) (none_overrides : bool) (levels : nat)
  (srcs : list source) (acc : dict) : M dict :=
  match srcs with
  | [] => ret acc
  | s :: rest =>
      d <- load h s ;;
      acc' <- lift (update_dict_recursively none_overrides levels acc d) ;;
      cascade h none_overrides levels rest acc'
  end.

(** Modelled from the spec: [CascadeConfig.parse] is missing.  All
    sources are merged in order, then the schema is applied; a rejected
    mapping is a configuration error naming the offending key. *)
Definition parse (h : host) (cc : CascadeConfig) : M value :=
  config <- cascade h (none_overrides_value cc) (max_recursion_depth cc)
              (sources cc) [] ;;
  match validation_schema cc (VDict config) with
  | None => ret (VDict config)
  | Some key => raise (MS2RescoreConfigurationError key)
  end.

(** ** [config_parser.py] *)

(** What [parse_configurations] can be handed, whole or as an element of
    the list: a dict, a str, a [Path], an [argparse.Namespace], a list,
    or any other object. *)
#[warnings="-register-all"]
Inductive pyobj : Type :=
| PDict (d : dict)
| PStr (s : string)
| PPath (p : Path)
| PNamespace (attrs : dict)
| PList (l : list pyobj)
| POther (repr : string).

Definition is_list (x : pyobj) : bool :=
  match x with PList _ => true | _ => false end.

(** Whether an object has none of the shapes the loop accepts. *)
Definition other_shape (x : pyobj) : bool :=
  match x with
  | PDict _ | PStr _ | PPath _ | PNamespace _ => false
  | PList _ | POther _ => true
  end.

(** The path a str or [Path] element names, and the file name handed to
    [open] and to [add_json] for it. *)
Definition path_source (x : pyobj) : option (Path * string) :=
  match x with
  | PStr s => Some (path_of s, s)
  | PPath p => Some (p, path_str p)
  | _ => None
  end.

Definition psm_file_missing_msg : string := "`psm_file` should be provided.".

Definition unknown_extension_msg : string :=
  "Unknown file extension for configuration file. Should be `json` or `toml`.".

Definition unknown_shape_msg : string :=
  "Configuration should be a dictionary, argparse Namespace, or path to a configuration file.".

Definition _validate_filenames (config : value) : M value :=
  psm <- lift (getitem2 config "ms2rescore" "psm_file") ;;
  if negb (truthy psm)
  then raise (MS2RescoreConfigurationError psm_file_missing_msg)
  else
    id_file <- lift (to_path psm) ;;
    found <- is_file id_file ;;
    if negb found then raise (FileNotFoundError (path_str id_file))
    else
      config <- lift (setitem2 config "ms2rescore" "psm_file"
                        (VStr (path_str id_file))) ;;
      sp <- lift (getitem2 config "ms2rescore" "spectrum_path") ;;
      config <-
        (if truthy sp
         then
           spectrum_path <- lift (to_path sp) ;;
           present <- path_exists spectrum_path ;;
           if negb present
           then raise (FileNotFoundError (path_str spectrum_path))
           else lift (setitem2 config "ms2rescore" "spectrum_path"
                        (VStr (path_str spectrum_path)))
         else ret config) ;;
      op <- lift (getitem2 config "ms2rescore" "output_path") ;;
      output_path <-
        (if truthy op
         then
           output_path <- lift (to_path op) ;;
           isd <- is_dir output_path ;;
           (if negb isd then mkdir_parents output_path else ret tt) ;;;
           ret output_path
         else ret (path_parent id_file)) ;;
      lift (setitem2 config "ms2rescore" "output_path"
              (VStr (path_str output_path))).

(** [v == z] and [v > z] against an integer; a bool counts as 0 or 1, and
    ordering any other object against an integer is a type error. *)
Definition py_eq_int (v : value) (z : Z) : bool :=
  match v with
  | VInt x => x =? z
  | VBool b => (if b then 1 else 0) =? z
  | _ => false
  end.

Definition py_gt_int (v : value) (z : Z) : exn + bool :=
  match v with
  | VInt x => inr (x >? z)
  | VBool b => inr ((if b then 1 else 0) >? z)
  | _ => inl TypeError
  end.

Definition _validate_processes (h : host) (config : value) : M value :=
  let n_available := cpu_count h in
  p <- lift (getitem2 config "ms2rescore" "processes") ;;
  over <- (if py_eq_int p (-1) then ret true
           else p' <- lift (getitem2 config "ms2rescore" "processes") ;;
                lift (py_gt_int p' n_available)) ;;
  if over : bool
  then lift (setitem2 config "ms2rescore" "processes" (VInt n_available))
  else ret config.

(** [{k.lower(): v for k, v in d.items()}] *)
Definition lower_keys (d : dict) : dict :=
  fold_left (fun acc kv => dict_set (lower (fst kv)) (snd kv) acc) d [].

(** [v.items()] *)
Definition items (v : value) : exn + dict :=
  match v with
  | VDict d => inr d
  | _ => inl AttributeError
  end.

Definition lowercase_section (config : value) (k : string) : M value :=
  sec <- lift (getitem2 config "ms2rescore" k) ;;
  its <- lift (items sec) ;;
  lift (setitem2 config "ms2rescore" k (VDict (lower_keys its))).

(** A str or [Path] element: dispatch on the extension of the path. *)
Definition add_configuration_file (h : host) (cascade_conf : CascadeConfig)
  (p : Path) (filename : string) : M CascadeConfig :=
  if (lower (path_suffix p) =? ".json")%string
  then ret (add_json cascade_conf filename)
  else if (lower (path_suffix p) =? ".toml")%string
  then
    emit (IoOpen filename) ;;;
    d <- lift (toml_file h filename) ;;
    ret (add_dict cascade_conf d)
  else raise (MS2RescoreConfigurationError unknown_extension_msg).

(** One round of the loop over the configurations. *)
Definition add_configuration (h : host) (cascade_conf : CascadeConfig)
  (config : pyobj) : M CascadeConfig :=
  match config with
  | PDict d => ret (add_dict cascade_conf d)
  | PStr s => add_configuration_file h cascade_conf (path_of s) s
  | PPath p => add_configuration_file h cascade_conf p (path_str p)
  | PNamespace attrs => ret (add_namespace cascade_conf attrs "ms2rescore")
  | PList _ | POther _ => raise (ValueError unknown_shape_msg)
  end.

Fixpoint add_configurations (h : host) (cascade_conf : CascadeConfig)
  (configurations : list pyobj) : M CascadeConfig :=
  match configurations with
  | [] => ret cascade_conf
  | config :: rest =>
      cc <- add_configuration h cascade_conf config ;;
      add_configurations h cc rest
  end.

(** The cascade as [parse_configurations] initialises it: the schema, the
    two options, and the defaults as the first source. *)
Definition new_cascade (pd : package_data) : CascadeConfig :=
  add_dict
    {| validation_schema := config_schema pd;
       none_overrides_value := false;
       max_recursion_depth := 1;
       sources := [] |}
    (config_default pd).

(** [configurations] as the list the loop runs over. *)
Definition as_list (configurations : pyobj) : list pyobj :=
  match configurations with
  | PList l => l
  | x => [x]
  end.

(** The first part of [parse_configurations], up to and including
    [cascade_conf.parse()]. *)
Definition resolve_cascade (pd : package_data) (h : host)
  (configurations : pyobj) : M value :=
  let configurations := as_list configurations in
  cascade_conf <- add_configurations h (new_cascade pd) configurations ;;
  parse h cascade_conf.

Definition parse_configurations (pd : package_data) (h : host)
  (configurations : pyobj) : M value :=
  config <- resolve_cascade pd h configurations ;;
  config <- _validate_filenames config ;;
  config <- _validate_processes h config ;;
  config <- lowercase_section config "feature_generators" ;;
  config <- lowercase_section config "rescoring_engine" ;;
  ret config.

(** ** The orchestrator: [main] of [__init__.py] *)

(** What [main] calls outside itself: the status of a shell command
    ([subprocess.getstatusoutput(cmd)[0]]), the three pipeline adapters,
    the collaborators of [rescore_core], [subprocess.run] (the error it
    raises when the command cannot be started, and the return code of
    the command otherwise), [os.remove] (done, or the error it raises),
    [os.path.isfile], the text [{}] formats an option value to, and the
    integer [int] reads from text. *)
Record tools : Type := mkTools {
  getstatusoutput : string -> Z;
  maxquant_pipeline : value -> exn + (string * string);
  msgf_pipeline : value -> exn + (string * string);
  tandem_pipeline : value -> exn + (string * string);
  make_ms2pip_config : value -> string -> exn + unit;
  subprocess_raises : string -> option exn;
  subprocess_run : string -> Z;
  calculate_features : string -> string -> Z -> value -> exn + unit;
  write_pin_files : string -> string -> string -> value -> exn + unit;
  os_remove : string -> exn + unit;
  os_isfile : string -> bool;
  format_value : value -> string;
  parse_int : string -> option Z
}.

Inductive event : Type :=
| EvStatus (cmd : string)
| EvLog (level msg : string)
| EvAdapter (name : string)
| EvMakeConfig (filename : string)
| EvRun (cmd : string)
| EvFeatures (preds out : string)
| EvPin (features : string)
| EvRemove (filename : string)
| EvIsFile (filename : string).

(** The events of the pipeline stages: everything but the probing of an
    executable and logging. *)
Definition is_stage_event (e : event) : bool :=
  match e with
  | EvStatus _ | EvLog _ _ => false
  | _ => true
  end.

Definition Orch (A : Type) : Type := Eff (list event) A.

Definition record (e : event) : Orch unit :=
  fun tr => (inr tt, (tr ++ [e])%list).

Definition log (level msg : string) : Orch unit := record (EvLog level msg).

(** [exit(code)] *)
Definition exit {A} (code : Z) : Orch A := raise (SystemExit code).

(** The exit status of the process: the code of [exit], 1 for any other
    uncaught exception, 0 when [main] returns. *)
Definition exit_status {A} (r : exn + A) : Z :=
  match r with
  | inr _ => 0
  | inl (SystemExit code) => code
  | inl _ => 1
  end.

(** [v.lower()] on a config value *)
Definition value_lower (v : value) : exn + string :=
  match v with
  | VStr s => inr (lower s)
  | _ => inl AttributeError
  end.

(** A config value used as text in [+]. *)
Definition as_str (v : value) : exn + string :=
  match v with
  | VStr s => inr s
  | _ => inl TypeError
  end.

(** [int(v)] *)
Definition py_int (t : tools) (v : value) : exn + Z :=
  match v with
  | VInt z => inr z
  | VBool b => inr (if b then 1 else 0)
  | VStr s => match parse_int t s with
              | Some z => inr z
              | None => inl (ValueError s)
              end
  | _ => inl TypeError
  end.

(** The elements [for x in v] visits. *)
Definition iterate (v : value) : exn + list value :=
  match v with
  | VList l => inr l
  | VDict d => inr (map (fun kv => VStr (fst kv)) d)
  | VStr s => inr (map (fun c => VStr (String c EmptyString)) (list_ascii_of_string s))
  | _ => inl TypeError
  end.

(** [s.replace(old, "")] *)
Fixpoint remove_all (old : string) (fuel : nat) (s : string) : string :=
  match fuel with
  | O => s
  | S fuel' =>
      if (old =? "")%string then s
      else if prefix old s
      then remove_all old fuel'
             (substring (String.length old) (String.length s - String.length old) s)
      else match s with
           | EmptyString => EmptyString
           | String c s' => String c (remove_all old fuel' s')
           end
  end.

Definition percolator_missing_msg : string :=
  "Could not call Percolator. Install Percolator or                Set `run_percolator` to false".

Definition ms2pip_missing_msg : string :=
  "Could not call MS2PIP. Check that MS2PIP is set-up correctly.".

(** The two checks at the head of [main], before a pipeline is chosen. *)
Definition preflight (t : tools) (config : value) : Orch unit :=
  rp <- lift (getitem2 config "general" "run_percolator") ;;
  (if truthy rp
   then
     record (EvStatus "percolator -h") ;;;
     if negb (getstatusoutput t "percolator -h" =? 0)
     then log "critical" percolator_missing_msg ;;; exit 1
     else ret tt
   else ret tt) ;;;
  record (EvStatus "ms2pip -h") ;;;
  if negb (getstatusoutput t "ms2pip -h" =? 0)
  then log "critical" ms2pip_missing_msg ;;; exit 0
  else ret tt.

Definition select_pipeline (t : tools) (config : value) : Orch (string * string) :=
  pl <- lift (getitem2 config "general" "pipeline") ;;
  kind <- lift (value_lower pl) ;;
  if (kind =? "maxquant")%string
  then
    name <- lift (as_str pl) ;;
    log "info" ("Using " ++ name ++ " pipeline") ;;;
    record (EvAdapter "maxquant") ;;;
    lift (maxquant_pipeline t config)
  else if mem kind ["msgfplus"; "msgf+"; "ms-gf+"]
  then record (EvAdapter "msgf") ;;; lift (msgf_pipeline t config)
  else if mem kind ["tandem"; "xtandem"; "x!tandem"]
  then record (EvAdapter "tandem") ;;; lift (tandem_pipeline t config)
  else log "critical" "Could not recognize the requested pipeline." ;;; exit 1.

Fixpoint remove_files (t : tools) (to_remove : list string) : Orch unit :=
  match to_remove with
  | [] => ret tt
  | filename :: rest =>
      record (EvRemove filename) ;;;
      (match os_remove t filename with
       | inr _ => ret tt
       | inl (FileNotFoundError path) =>
           log "debug"
             ("[Errno 2] No such file or directory: '" ++ path ++ "'")
       | inl e => raise e
       end) ;;;
      remove_files t rest
  end.

(** The head of the rescoring command: one [--op value] per key of the
    [percolator] section. *)
Definition percolator_options (t : tools) (p : value) : exn + string :=
  match p with
  | VDict d =>
      inr (fold_left
             (fun cmd kv =>
                cmd ++ "--" ++ fst kv ++ " " ++ format_value t (snd kv) ++ " ")
             d "percolator ")
  | _ => inl AttributeError
  end.

Fixpoint run_percolator (t : tools) (config : value) (outname : string)
  (subsets : list value) : Orch unit :=
  match subsets with
  | [] => ret tt
  | subset :: rest =>
      sub <- lift (as_str subset) ;;
      let subname := outname ++ "_" ++ sub ++ "features" in
      perc <- lift (getitem config "percolator") ;;
      cmd <- lift (percolator_options t perc) ;;
      let percolator_cmd :=
        cmd ++ subname ++ ".pin" ++ " -m " ++ subname ++ ".pout"
            ++ " -M " ++ subname ++ ".pout_dec" ++ " -w " ++ subname ++ ".weights"
            ++ " -v 0 -U --post-processing-tdc" ++ String "010"%char EmptyString in
      log "info" ("Running Percolator: " ++ percolator_cmd) ;;;
      record (EvRun percolator_cmd) ;;;
      (match subprocess_raises t percolator_cmd with
       | Some e => raise e
       | None => ret tt
       end) ;;;
      record (EvIsFile (subname ++ ".pout")) ;;;
      (if negb (os_isfile t (subname ++ ".pout"))
       then log "error" "Error running Percolator"
       else ret tt) ;;;
      run_percolator t config outname rest
  end.

(** Everything of [main] after the pre-flight checks. *)
Definition stages (t : tools) (config : value) : Orch unit :=
  names <- select_pipeline t config ;;
  let '(peprec_filename, mgf_filename) := names in
  on <- lift (getitem2 config "general" "output_filename") ;;
  outname <- lift (as_str on) ;;
  let ms2pip_config_filename := outname ++ "_ms2pip_config.txt" in
  record (EvMakeConfig ms2pip_config_filename) ;;;
  lift (make_ms2pip_config t config ms2pip_config_filename) ;;;
  nc <- lift (getitem2 config "general" "num_cpu") ;;
  num_cpu <- lift (py_int t nc) ;;
  let ms2pip_command :=
    "ms2pip " ++ peprec_filename ++ " -c " ++ ms2pip_config_filename
      ++ " -s " ++ mgf_filename ++ " -m " ++ str_of_Z num_cpu in
  log "info" ("Running MS2PIP: " ++ ms2pip_command) ;;;
  record (EvRun ms2pip_command) ;;;
  (match subprocess_raises t ms2pip_command with
   | Some e => raise e
   | None =>
       if negb (subprocess_run t ms2pip_command =? 0)
       then raise (CalledProcessError ms2pip_command) else ret tt
   end) ;;;
  log "info" "Calculating features from predicted spectra" ;;;
  mv <- lift (getitem2 config "ms2pip" "model") ;;
  model <- lift (as_str mv) ;;
  let preds_filename :=
    remove_all ".peprec" (String.length peprec_filename) peprec_filename
      ++ "_" ++ model ++ "_pred_and_emp.csv" in
  nc <- lift (getitem2 config "general" "num_cpu") ;;
  num_cpu <- lift (py_int t nc) ;;
  bar <- lift (getitem2 config "general" "show_progress_bar") ;;
  record (EvFeatures preds_filename (outname ++ "_ms2pipfeatures.csv")) ;;;
  lift (calculate_features t preds_filename (outname ++ "_ms2pipfeatures.csv")
          num_cpu bar) ;;;
  log "info" "Generating PIN files" ;;;
  sets <- lift (getitem2 config "general" "feature_sets") ;;
  record (EvPin (outname ++ "_ms2pipfeatures.csv")) ;;;
  lift (write_pin_files t (outname ++ "_ms2pipfeatures.csv") peprec_filename
          outname sets) ;;;
  keep <- lift (getitem2 config "general" "keep_tmp_files") ;;
  (if negb (truthy keep)
   then
     log "debug" "Removing temporary files" ;;;
     mv <- lift (getitem2 config "ms2pip" "model") ;;
     model <- lift (as_str mv) ;;
     remove_files t
       [ms2pip_config_filename; preds_filename;
        outname ++ "_ms2pipfeatures.csv";
        outname ++ "_" ++ model ++ "_correlations.csv";
        outname ++ ".mgf"; outname ++ ".peprec"]
   else ret tt) ;;;
  rp <- lift (getitem2 config "general" "run_percolator") ;;
  (if truthy rp
   then
     sets <- lift (getitem2 config "general" "feature_sets") ;;
     subsets <- lift (iterate sets) ;;
     run_percolator t config outname subsets
   else ret tt) ;;;
  log "info" "MS2ReScore finished!".

(** [main], given the configuration [parse_config] returned. *)
Definition main (t : tools) (config : value) : Orch unit :=
  preflight t config ;;;
  stages t config.

(** ** The command line: [parse_config] of [__init__.py] *)

(** What [parse_arguments] returns: the positional identification file
    and the values of [-m], [-c], [-o] and [-l]; [-m] and [-o] are [None]
    when not given, [-c] and [-l] have defaults. *)
Record arguments : Type := mkArguments {
  identification_file : string;
  mgf_file : option string;
  config_file : string;
  output_filename : option string;
  log_level : string
}.

(** Truth value of an optional text, as [if args.x:] tests it. *)
Definition given (o : option string) : bool :=
  match o with
  | Some s => negb (s =? "")%string
  | None => false
  end.

(** Whether [s] has a character other than [c]. *)
Fixpoint has_other_than (c : ascii) (s : string) : bool :=
  match s with
  | EmptyString => false
  | String c' s' => negb (Ascii.eqb c' c) || has_other_than c s'
  end.

(** [os.path.splitext(p)]: the extension starts at the last dot of [p],
    when that dot comes after the last slash and after a character of
    the file name that is not a dot. *)
Definition splitext (p : string) : string * string :=
  match rfind "."%char p with
  | Some dot =>
      let start := match rfind "/"%char p with
                   | Some sep => S sep
                   | None => O
                   end in
      if (Nat.leb start dot
          && has_other_than "."%char (substring start (dot - start) p))%bool
      then (substring 0 dot p, substring dot (String.length p - dot) p)
      else (p, "")
  | None => (p, "")
  end.

(** What [parse_config] calls outside itself: [setup_logging] (its
    module is not part of the sources at hand, so its outcome is taken
    from here), [os.path.abspath], and the reading of the configuration
    file ([open] and [json.load]), where a [ParseError] stands for
    [json.decoder.JSONDecodeError]. *)
Record shell : Type := mkShell {
  setup_logging : string -> exn + unit;
  abspath : string -> string;
  read_config : string -> exn + value
}.

(** The state [parse_config] and the whole program run in: the world of
    files and the events of the orchestrator. *)
Record session : Type := mkSession { disk : world; happened : list event }.

Definition Cli (A : Type) : Type := Eff session A.

Definition on_disk {A} (m : M A) : Cli A :=
  fun s => let (r, w') := m (disk s) in
           (r, {| disk := w'; happened := happened s |}).

Definition on_events {A} (m : Orch A) : Cli A :=
  fun s => let (r, tr') := m (happened s) in
           (r, {| disk := disk s; happened := tr' |}).

Definition config_unreadable_msg : string :=
  "Could not read JSON config file. Please use correct             JSON formatting.".

(** [config['general'][k] = v] when the text [v] is not empty. *)
Definition set_general_if (config : value) (k v : string) : exn + value :=
  if negb (v =? "")%string then setitem2 config "general" k (VStr v)
  else inr config.

(** [parse_config], from the arguments [parse_arguments] returned.
    [os.path.isfile], [os.path.isdir] and [os.makedirs(exist_ok=True)]
    look a path up under its normalised spelling, as the methods of
    [Path] do above. *)
Definition parse_config (c : shell) (args : arguments) : Cli value :=
  lift (setup_logging c (log_level args)) ;;;
  found <- on_disk (is_file (path_of (identification_file args))) ;;
  if negb found then raise (FileNotFoundError (identification_file args))
  else
    mgf <-
      (match mgf_file args with
       | Some m =>
           if given (mgf_file args)
           then
             found <- on_disk (is_file (path_of m)) ;;
             if negb found then raise (FileNotFoundError m) else ret m
           else ret (fst (splitext (identification_file args)) ++ ".mgf")
       | None => ret (fst (splitext (identification_file args)) ++ ".mgf")
       end) ;;
    out <-
      (match output_filename args with
       | Some o =>
           if given (output_filename args)
           then
             let output_path := abspath c o in
             isd <- on_disk (is_dir (path_of output_path)) ;;
             (if negb isd then on_disk (mkdir_parents (path_of output_path))
              else ret tt) ;;;
             ret o
           else ret (fst (splitext (identification_file args)))
       | None => ret (fst (splitext (identification_file args)))
       end) ;;
    config <-
      (on_disk (emit (IoOpen (config_file args))) ;;;
       match read_config c (config_file args) with
       | inr config => ret config
       | inl (ParseError _) =>
           on_events (log "critical" config_unreadable_msg) ;;;
           raise (SystemExit 1)
       | inl e => raise e
       end) ;;
    config <- lift (setitem2 config "general" "identification_file"
                      (VStr (identification_file args))) ;;
    config <- lift (set_general_if config "mgf_file" mgf) ;;
    config <- lift (set_general_if config "log_level" (log_level args)) ;;
    config <- lift (set_general_if config "output_filename" out) ;;
    ret config.

(** The program: [main()] of [__init__.py], from the parsed arguments. *)
Definition program (c : shell) (t : tools) (args : arguments) : Cli unit :=
  config <- parse_config c args ;;
  on_events (main t config).

(** ** Concrete package data, host and inputs

    Used to run the definitions above: in the examples, the witnesses and
    the counterexamples below. *)

Definition str_or_none (v : value) : bool :=
  match v with VStr _ | VNone => true | _ => false end.

Definition is_int (v : value) : bool :=
  match v with VInt _ => true | _ => false end.

Definition is_dict (v : value) : bool :=
  match v with VDict _ => true | _ => false end.

(** The first of the [required] keys that is missing from [d] or whose
    value fails its check. *)
Fixpoint first_offending (required : list (string * (value -> bool)))
  (d : dict) : option string :=
  match required with
  | [] => None
  | (k, check) :: rest =>
      match lookup k d with
      | Some v => if check v then first_offending rest d else Some k
      | None => Some k
      end
  end.

(** Modelled from the spec: [package_data/config_schema.json] is
    missing.  The resolved configuration shape of the spec: one pipeline
    section, in which [psm_file], [spectrum_path] and [output_path] are
    text or null, [processes] is an integer, and [feature_generators] and
    [rescoring_engine] are mappings; an unknown top-level key is
    rejected. *)
Definition shape_schema (v : value) : option string :=
  match v with
  | VDict d =>
      match find (fun kv => negb (fst kv =? "ms2rescore")%string) d with
      | Some (k, _) => Some k
      | None =>
          match lookup "ms2rescore" d with
          | Some (VDict sec) =>
              first_offending
                [("psm_file", str_or_none); ("spectrum_path", str_or_none);
                 ("output_path", str_or_none); ("processes", is_int);
                 ("feature_generators", is_dict);
                 ("rescoring_engine", is_dict)] sec
          | _ => Some "ms2rescore"
          end
      end
  | _ => Some ""
  end.

(** Modelled from the spec: [package_data/config_default.json] is
    missing.  A default for every key of the shape above. *)
Definition shape_default : dict :=
  [("ms2rescore",
    VDict [("psm_file", VNone); ("spectrum_path", VNone);
           ("output_path", VNone); ("processes", VInt (-1));
           ("feature_generators", VDict [("ms2pip", VDict [("model", VStr "HCD")])]);
           ("rescoring_engine", VDict [("percolator", VDict [])])])].

Definition shape_package : package_data :=
  {| config_schema := shape_schema; config_default := shape_default |}.

(** A host with four execution units and two configuration documents. *)
Definition lab_host : host :=
  {| cpu_count := 4;
     json_file := fun f =>
       if (f =? "conf/run.JSON")%string
       then inr [("ms2rescore", VDict [("psm_file", VStr "data/psms.tsv")])]
       else inl (FileNotFoundError f);
     toml_file := fun f =>
       if (f =? "conf/run.Toml")%string
       then inr [("ms2rescore", VDict [("psm_file", VStr "data/psms.tsv");
                                       ("processes", VInt 2)])]
       else inl (FileNotFoundError f) |}.

(** A file system holding one identification file. *)
Definition lab_world : world :=
  {| fs := {| files := ["data/psms.tsv"]; dirs := ["data"] |}; trace := [] |}.

(** A dictionary source naming the identification file and [processes]. *)
Definition psm_source (psm : string) (processes : Z) : pyobj :=
  PDict [("ms2rescore", VDict [("psm_file", VStr psm);
                               ("processes", VInt processes)])].

(** A dictionary source that empties the pipeline section, and one that
    gives every key of it. *)
Definition emptied_section : pyobj := PDict [("ms2rescore", VDict [])].

Definition whole_section (psm : string) (processes : Z) : pyobj :=
  PDict [("ms2rescore",
          VDict [("psm_file", VStr psm); ("spectrum_path", VNone);
                 ("output_path", VNone); ("processes", VInt processes);
                 ("feature_generators", VDict [("ms2pip", VDict [])]);
                 ("rescoring_engine", VDict [("percolator", VDict [])])])].


(** [subprocess.run] on a command line with a null character in it. *)
Definition run_refuses (cmd : string) : option exn :=
  if contains (String "000"%char EmptyString) cmd
  then Some (ValueError "embedded null byte") else None.

(** The name of a feature subset with a null character in it. *)
Definition nul_name : string := String "000"%char "x".

(** Tools on a machine where neither executable can be called. *)
Definition bare_tools : tools :=
  {| getstatusoutput := fun _ => 127;
     maxquant_pipeline := fun _ => inr ("out.peprec", "out.mgf");
     msgf_pipeline := fun _ => inr ("out.peprec", "out.mgf");
     tandem_pipeline := fun _ => inr ("out.peprec", "out.mgf");
     make_ms2pip_config := fun _ _ => inr tt;
     subprocess_raises := run_refuses;
     subprocess_run := fun _ => 0;
     calculate_features := fun _ _ _ _ => inr tt;
     write_pin_files := fun _ _ _ _ => inr tt;
     os_remove := fun _ => inr tt;
     os_isfile := fun _ => true;
     format_value := fun v => match v with VStr s => s | _ => "" end;
     parse_int := fun _ => None |}.

(** Tools on a machine where every executable can be called. *)
Definition full_tools : tools :=
  {| getstatusoutput := fun _ => 0;
     maxquant_pipeline := maxquant_pipeline bare_tools;
     msgf_pipeline := msgf_pipeline bare_tools;
     tandem_pipeline := tandem_pipeline bare_tools;
     make_ms2pip_config := make_ms2pip_config bare_tools;
     subprocess_raises := subprocess_raises bare_tools;
     subprocess_run := subprocess_run bare_tools;
     calculate_features := calculate_features bare_tools;
     write_pin_files := write_pin_files bare_tools;
     os_remove := os_remove bare_tools;
     os_isfile := os_isfile bare_tools;
     format_value := format_value bare_tools;
     parse_int := parse_int bare_tools |}.

(** A configuration of the orchestrator with rescoring switched off. *)
Definition maxquant_config (run_percolator : bool) : value :=
  VDict [("general",
          VDict [("run_percolator", VBool run_percolator);
                 ("pipeline", VStr "MaxQuant");
                 ("output_filename", VStr "out");
                 ("num_cpu", VInt 2);
                 ("show_progress_bar", VBool false);
                 ("feature_sets", VList [VStr "all"; VStr "ms2pip"]);
                 ("keep_tmp_files", VBool true)]);
         ("ms2pip", VDict [("model", VStr "HCD")]);
         ("percolator", VDict [("trainFDR", VStr "0.01")])].

(** A shell in which logging can be set up, relative paths are under
    [/home/lab], and there are a good and a malformed configuration
    file. *)
Definition lab_shell : shell :=
  {| setup_logging := fun _ => inr tt;
     abspath := fun p => if prefix "/" p then p else "/home/lab/" ++ p;
     read_config := fun f =>
       if (f =? "config.json")%string then inr (maxquant_config false)
       else if (f =? "broken.json")%string then inl (ParseError f)
       else inl (FileNotFoundError f) |}.

Definition lab_arguments (id config : string) (o : option string)
  : arguments :=
  {| identification_file := id;
     mgf_file := None;
     config_file := config;
     output_filename := o;
     log_level := "debug" |}.

Definition lab_session : session :=
  {| disk := lab_world; happened := [] |}.

(** A resolved configuration with every path set. *)
Definition resolved_paths (psm spectrum out : value) : value :=
  VDict [("ms2rescore",
          VDict [("psm_file", psm); ("spectrum_path", spectrum);
                 ("output_path", out); ("processes", VInt 2);
                 ("feature_generators", VDict []);
                 ("rescoring_engine", VDict [])])].

(** Tools on a machine where every executable can be called but every
    command that is run fails. *)
Definition failing_tools : tools :=
  {| getstatusoutput := fun _ => 0;
     maxquant_pipeline := maxquant_pipeline bare_tools;
     msgf_pipeline := msgf_pipeline bare_tools;
     tandem_pipeline := tandem_pipeline bare_tools;
     make_ms2pip_config := make_ms2pip_config bare_tools;
     subprocess_raises := run_refuses;
     subprocess_run := fun _ => 1;
     calculate_features := calculate_features bare_tools;
     write_pin_files := write_pin_files bare_tools;
     os_remove := fun f => inl (FileNotFoundError f);
     os_isfile := fun _ => false;
     format_value := format_value bare_tools;
     parse_int := parse_int bare_tools |}.

(** Tools on a machine where one temporary file is missing and a
    directory stands in the place of another. *)
Definition cluttered_tools : tools :=
  {| getstatusoutput := fun _ => 0;
     maxquant_pipeline := maxquant_pipeline bare_tools;
     msgf_pipeline := msgf_pipeline bare_tools;
     tandem_pipeline := tandem_pipeline bare_tools;
     make_ms2pip_config := make_ms2pip_config bare_tools;
     subprocess_raises := run_refuses;
     subprocess_run := fun _ => 0;
     calculate_features := calculate_features bare_tools;
     write_pin_files := write_pin_files bare_tools;
     os_remove := fun f =>
       if (f =? "out_ms2pip_config.txt")%string
       then inl (FileNotFoundError f)
       else if (f =? "out.mgf")%string then inl (IsADirectoryError f)
       else inr tt;
     os_isfile := fun _ => true;
     format_value := format_value bare_tools;
     parse_int := parse_int bare_tools |}.

(** ** Vocabulary of the statements *)

(** From [w] to [w'] the file system is the same and no event that [bad]
    marks was added to the trace. *)
Definition untouched (bad : io -> bool) (w w' : world) : Prop :=
  fs w' = fs w /\
  exists evs, trace w' = (trace w ++ evs)%list /\
              Forall (fun e => bad e = false) evs.

(** A computation that, whatever its outcome, leaves the world
    [untouched]. *)
Definition quiet {A} (bad : io -> bool) (m : M A) : Prop :=
  forall w r w', m w = (r, w') -> untouched bad w w'.

(** The mapping an element of the list contributes to the cascade: a
    dictionary itself, the attributes of an argument bundle under the
    pipeline section, and for a path with one of the two extensions what
    the reader of that format returns for the file. *)
Definition mapping_of (h : host) (x : pyobj) : option dict :=
  match x with
  | PDict d => Some d
  | PNamespace attrs => Some [("ms2rescore", VDict attrs)]
  | PStr _ | PPath _ =>
      match path_source x with
      | Some (p, filename) =>
          if (lower (path_suffix p) =? ".json")%string
          then match json_file h filename with
               | inr d => Some d
               | inl _ => None
               end
          else if (lower (path_suffix p) =? ".toml")%string
          then match toml_file h filename with
               | inr d => Some d
               | inl _ => None
               end
          else None
      | None => None
      end
  | PList _ | POther _ => None
  end.

(** A source [s] stands for the element [x] of the list: what it loads
    is the mapping the element contributes. *)
Definition stands_for (h : host) (x : pyobj) (s : source) : Prop :=
  forall w b w', load h s w = (inr b, w') -> mapping_of h x = Some b.

(** Every element of [later] contributes a mapping that passes [test]. *)
Definition all_mappings (h : host) (test : dict -> bool)
  (later : list pyobj) : bool :=
  forallb (fun x => match mapping_of h x with
                    | Some b => test b
                    | None => false
                    end) later.

(** A str or [Path] element whose extension is neither [.json] nor
    [.toml], whatever the case of its letters. *)
Definition unsupported_extension (x : pyobj) : bool :=
  match path_source x with
  | Some (p, _) =>
      negb (lower (path_suffix p) =? ".json")%string
      && negb (lower (path_suffix p) =? ".toml")%string
  | None => false
  end.

(** The value [_validate_processes] leaves for a request of [p] on a host
    with [n] execution units. *)
Definition resolved_processes (n p : Z) : Z :=
  if ((p =? -1) || (p >? n))%bool then n else p.

(** Key [k] is null or absent in the mapping [b]. *)
Definition null_or_absent (k : string) (b : dict) : bool :=
  forallb (fun kv => negb (fst kv =? k)%string || is_none (snd kv)) b.

(** Key [k] of section [s] is null or absent in the source [b]: the
    section is absent, null, or a mapping that is not empty and in which
    [k] is null or absent. *)
Definition null_or_absent_in (s k : string) (b : dict) : bool :=
  forallb
    (fun kv =>
       negb (fst kv =? s)%string
       || match snd kv with
          | VNone => true
          | VDict [] => false
          | VDict sec => null_or_absent k sec
          | _ => false
          end)
    b.

(** What one entry [(k, v)] of a later source does to the accumulated
    mapping: the body of the loop of [update_dict_recursively]. *)
Definition merge_entry (none_overrides : bool) (levels : nat)
  (orig : dict) (k : string) (v : value) : exn + dict :=
  match v with
  | VDict [] => inr (dict_set k (VDict []) orig)
  | VDict dv =>
      match levels with
      | O => inr (dict_set k v orig)
      | S levels' =>
          match lookup k orig with
          | None => inr (dict_set k v orig)
          | Some (VDict dorig) =>
              match update_dict_recursively none_overrides levels'
                      dorig dv with
              | inl e => inl e
              | inr merged => inr (dict_set k (VDict merged) orig)
              end
          | Some o =>
              match update_non_mapping none_overrides levels' o dv with
              | inl e => inl e
              | inr o' => inr (dict_set k o' orig)
              end
          end
      end
  | VBool _ => inr (dict_set k v orig)
  | _ =>
      if (truthy v || negb (has_key k orig))%bool
      then inr (dict_set k v orig)
      else if none_overrides then inr (dict_set k v orig)
      else inr orig
  end.

(** The schema applied to a merged mapping, as [parse] ends. *)
Definition validated (pd : package_data) (config : dict) : M value :=
  match config_schema pd (VDict config) with
  | None => ret (VDict config)
  | Some key => raise (MS2RescoreConfigurationError key)
  end.

(** What the cascade does with the mapping [d] of the one source that
    follows the defaults: merge it into them and apply the schema. *)
Definition merged_over (pd : package_data) (defaults d : dict) : M value :=
  config <- lift (update_dict_recursively false 1 defaults d) ;;
  validated pd config.






(** The rescoring command of the feature subset [sub], after the
    options. *)
Definition percolator_command (options outname sub : string) : string :=
  let subname := outname ++ "_" ++ sub ++ "features" in
  options ++ subname ++ ".pin" ++ " -m " ++ subname ++ ".pout"
    ++ " -M " ++ subname ++ ".pout_dec" ++ " -w " ++ subname ++ ".weights"
    ++ " -v 0 -U --post-processing-tdc" ++ String "010"%char EmptyString.

(** An outcome of [os.remove] that the clean-up passes over: the file was
    removed, or it was not there. *)
Definition harmless (r : exn + unit) : bool :=
  match r with
  | inr _ => true
  | inl (FileNotFoundError _) => true
  | inl _ => false
  end.

(** The value under [s][k] of the mapping a run returned. *)
Definition resolved_value (r : (exn + value) * world) (s k : string)
  : exn + value :=
  match fst r with
  | inr config => getitem2 config s k
  | inl e => inl e
  end.

(** From [w] to [w'] no file appeared or disappeared and no directory
    disappeared: the directories are the old ones and possibly more. *)
Definition grows (w w' : world) : Prop :=
  files (fs w') = files (fs w) /\
  exists extra, dirs (fs w') = (dirs (fs w) ++ extra)%list.

(** A computation under which, whatever its outcome, the world only
    [grows]. *)
Definition growing {A} (m : M A) : Prop :=
  forall w r w', m w = (r, w') -> grows w w'.

(** A computation of the orchestrator that only adds events, all of them
    satisfying [P]. *)
Definition emits {A} (P : event -> bool) (m : Orch A) : Prop :=
  forall tr r tr', m tr = (r, tr') ->
                   exists evs, tr' = (tr ++ evs)%list /\
                               Forall (fun e => P e = true) evs.

(** A computation of the orchestrator that always ends in an exception. *)
Definition never_returns {A} (m : Orch A) : Prop :=
  forall tr a tr', m tr <> (inr a, tr').

(** Probing or running the rescoring tool. *)
Definition calls_percolator (e : event) : bool :=
  match e with
  | EvStatus cmd | EvRun cmd => prefix "percolator" cmd
  | _ => false
  end.

(** The events of the stages that follow the prediction run. *)
Definition after_prediction (e : event) : bool :=
  match e with
  | EvFeatures _ _ | EvPin _ | EvRemove _ | EvIsFile _ => true
  | _ => false
  end.

(** The files a trace tried to remove, and the commands it ran, in
    order. *)
Definition removed (evs : list event) : list string :=
  flat_map (fun e => match e with EvRemove f => [f] | _ => [] end) evs.

Definition ran (evs : list event) : list string :=
  flat_map (fun e => match e with EvRun cmd => [cmd] | _ => [] end) evs.

(** The keys of the pipeline section that the post-validation of
    [parse_configurations] may rewrite. *)
Definition post_validated : list string :=
  ["psm_file"; "spectrum_path"; "output_path"; "processes";
   "feature_generators"; "rescoring_engine"].

(** The value of an option of the command line: the one given, or the
    default when it was not given or is empty. *)
Definition chosen (o : option string) (default : string) : string :=
  match o with
  | Some x => if given o then x else default
  | None => default
  end.

(** The keys of [general] that [parse_config] writes. *)
Definition cli_keys : list string :=
  ["identification_file"; "mgf_file"; "log_level"; "output_filename"].

(** The value under [general][k] of the configuration [parse_config]
    returned. *)
Definition general_value (r : (exn + value) * session) (k : string)
  : exn + value :=
  match fst r with
  | inr config => getitem2 config "general" k
  | inl e => inl e
  end.

(** * Properties *)

(** ** Strings and dictionaries *)

Lemma ascii_lower_idem (c : ascii) : ascii_lower (ascii_lower c) = ascii_lower c.
Proof.
  destruct c as [[] [] [] [] [] [] [] []]; reflexivity.
Qed.

Lemma lower_idem (s : string) : lower (lower s) = lower s.
Proof.
  induction s as [|c s IH]; simpl.
  - reflexivity.
  - now rewrite ascii_lower_idem, IH.
Qed.

Lemma lookup_dict_set_same (k : string) (v : value) (d : dict) :
  lookup k (dict_set k v d) = Some v.
Proof.
  induction d as [|[k' v'] d IH]; simpl.
  - now rewrite String.eqb_refl.
  - destruct (String.eqb k' k) eqn:E; simpl; rewrite E; auto.
Qed.

Lemma lookup_dict_set_other (k k' : string) (v : value) (d : dict) :
  k' <> k -> lookup k' (dict_set k v d) = lookup k' d.
Proof.
  intros Hne. induction d as [|[k0 v0] d IH]; simpl.
  - destruct (String.eqb k k') eqn:E; auto.
    apply String.eqb_eq in E. congruence.
  - destruct (String.eqb k0 k) eqn:E; simpl.
    + apply String.eqb_eq in E. subst k0.
      destruct (String.eqb k k') eqn:E'; auto.
      apply String.eqb_eq in E'. congruence.
    + now rewrite IH.
Qed.

Lemma keys_dict_set (k k' : string) (v : value) (d : dict) :
  In k' (keys (dict_set k v d)) -> k' = k \/ In k' (keys d).
Proof.
  unfold keys. induction d as [|[k0 v0] d IH]; simpl.
  - intros [H|[]]; auto.
  - destruct (String.eqb k0 k) eqn:E; simpl.
    + intros [H|H]; auto.
    + intros [H|H]; auto. destruct (IH H); auto.
Qed.

Lemma lookup_None_dict_set (k : string) (v : value) (d : dict) :
  lookup k d = None -> dict_set k v d = (d ++ [(k, v)])%list.
Proof.
  induction d as [|[k0 v0] d IH]; simpl; [reflexivity|].
  destruct (String.eqb k0 k); [discriminate|].
  intros H. now rewrite IH.
Qed.

Lemma lookup_None_keys (k : string) (d : dict) :
  ~ In k (keys d) -> lookup k d = None.
Proof.
  unfold keys. induction d as [|[k0 v0] d IH]; simpl; [reflexivity|].
  intros H. destruct (String.eqb k0 k) eqn:E.
  - apply String.eqb_eq in E. tauto.
  - apply IH. tauto.
Qed.

(** ** The monad *)

Lemma bind_inl {S A B} (m : Eff S A) (f : A -> Eff S B) w e w' :
  m w = (inl e, w') -> bind m f w = (inl e, w').
Proof. unfold bind. now intros ->. Qed.

Lemma bind_inr {S A B} (m : Eff S A) (f : A -> Eff S B) w a w' :
  m w = (inr a, w') -> bind m f w = f a w'.
Proof. unfold bind. now intros ->. Qed.

Lemma bind_assoc {S A B C} (m : Eff S A) (f : A -> Eff S B)
  (g : B -> Eff S C) w :
  bind (bind m f) g w = bind m (fun a => bind (f a) g) w.
Proof. unfold bind. destruct (m w) as [[e|a] w1]; reflexivity. Qed.

Lemma bind_ext {S A B} (m : Eff S A) (f g : A -> Eff S B) w :
  (forall a w1, f a w1 = g a w1) -> bind m f w = bind m g w.
Proof.
  intros H. unfold bind. destruct (m w) as [[e|a] w1]; [reflexivity|apply H].
Qed.

Lemma bind_inv {S A B} (m : Eff S A) (f : A -> Eff S B) w r w2 :
  bind m f w = (r, w2) ->
  (exists e, m w = (inl e, w2) /\ r = inl e) \/
  (exists a w1, m w = (inr a, w1) /\ f a w1 = (r, w2)).
Proof.
  unfold bind. destruct (m w) as [[e|a] w1]; intros H.
  - left. exists e. now inversion H.
  - right. now exists a, w1.
Qed.

Lemma bind_ok_inv {S A B} (m : Eff S A) (f : A -> Eff S B) w b w2 :
  bind m f w = (inr b, w2) ->
  exists a w1, m w = (inr a, w1) /\ f a w1 = (inr b, w2).
Proof.
  intros H. apply bind_inv in H as [(e & _ & He)|H]; [discriminate|exact H].
Qed.

Lemma untouched_refl bad w : untouched bad w w.
Proof.
  split; [reflexivity|]. exists []. split; [now rewrite app_nil_r|constructor].
Qed.

Lemma untouched_trans bad w1 w2 w3 :
  untouched bad w1 w2 -> untouched bad w2 w3 -> untouched bad w1 w3.
Proof.
  intros [F1 (e1 & T1 & A1)] [F2 (e2 & T2 & A2)]. split; [congruence|].
  exists (e1 ++ e2)%list. split.
  - now rewrite T2, T1, app_assoc.
  - apply Forall_app; auto.
Qed.

Lemma quiet_ret {A} bad (a : A) : quiet bad (ret a).
Proof. intros w r w' [= <- <-]. apply untouched_refl. Qed.

Lemma quiet_raise {A} bad e : quiet bad (@raise world A e).
Proof. intros w r w' [= <- <-]. apply untouched_refl. Qed.

Lemma quiet_lift {A} bad (x : exn + A) : quiet bad (lift x).
Proof. intros w r w' [= <- <-]. apply untouched_refl. Qed.

Lemma quiet_emit bad e : bad e = false -> quiet bad (emit e).
Proof.
  intros He w r w' [= <- <-]. split; [reflexivity|].
  exists [e]. split; [reflexivity|]. now constructor.
Qed.

Lemma quiet_bind {A B} bad (m : M A) (f : A -> M B) :
  quiet bad m -> (forall a, quiet bad (f a)) -> quiet bad (bind m f).
Proof.
  intros Hm Hf w r w' H.
  apply bind_inv in H as [(e & H & _)|(a & w1 & H1 & H2)].
  - eapply Hm; eauto.
  - eapply untouched_trans; [eapply Hm|eapply Hf]; eauto.
Qed.

Create HintDb quiet.

#[local] Hint Resolve quiet_ret quiet_raise quiet_lift quiet_emit quiet_bind
  : quiet.

(** ** The cascade reads documents and does nothing else *)

Lemma quiet_load h s : quiet is_path_check (load h s).
Proof.
  destruct s; simpl; auto with quiet.
Qed.

Lemma quiet_cascade h no levels srcs :
  forall acc, quiet is_path_check (cascade h no levels srcs acc).
Proof.
  induction srcs as [|s srcs IH]; intros acc; simpl.
  - auto with quiet.
  - apply quiet_bind; [apply quiet_load|]. intros d.
    apply quiet_bind; [auto with quiet|]. intros acc'. apply IH.
Qed.

Lemma quiet_parse h cc : quiet is_path_check (parse h cc).
Proof.
  unfold parse. apply quiet_bind; [apply quiet_cascade|].
  intros config. destruct (validation_schema cc (VDict config)); auto with quiet.
Qed.

Lemma quiet_add_configuration h cc x :
  quiet is_path_check (add_configuration h cc x).
Proof.
  destruct x; simpl; auto with quiet;
    unfold add_configuration_file;
    repeat match goal with
           | |- context [if ?b then _ else _] => destruct b
           end; auto 6 with quiet.
Qed.

Lemma quiet_add_configurations h l :
  forall cc, quiet is_path_check (add_configurations h cc l).
Proof.
  induction l as [|x l IH]; intros cc; simpl.
  - auto with quiet.
  - apply quiet_bind; [apply quiet_add_configuration|]. intros cc'. apply IH.
Qed.

Lemma quiet_resolve_cascade pd h x :
  quiet is_path_check (resolve_cascade pd h x).
Proof.
  unfold resolve_cascade. apply quiet_bind.
  - apply quiet_add_configurations.
  - intros cc. apply quiet_parse.
Qed.

Lemma add_configurations_app h l1 l2 :
  forall cc w,
    add_configurations h cc (l1 ++ l2) w
    = bind (add_configurations h cc l1)
           (fun cc' => add_configurations h cc' l2) w.
Proof.
  induction l1 as [|x l1 IH]; intros cc w; simpl.
  - reflexivity.
  - unfold bind at 1 2 3.
    destruct (add_configuration h cc x w) as [[e|cc1] w1]; [reflexivity|].
    rewrite IH. reflexivity.
Qed.

(** A list holding an element that the loop rejects wherever it meets it
    is never processed to the end. *)
Lemma add_configurations_rejects h (bad : pyobj -> bool) :
  (forall cc x w, bad x = true ->
                  exists e, add_configuration h cc x w = (inl e, w)) ->
  forall l x, In x l -> bad x = true ->
  forall cc w, exists e w', add_configurations h cc l w = (inl e, w').
Proof.
  intros Hbad l x Hin Hx. induction l as [|y l IH]; [destruct Hin|].
  intros cc w. simpl.
  destruct (add_configuration h cc y w) as [[e|cc1] w1] eqn:E.
  - exists e, w1. now apply bind_inl.
  - destruct Hin as [->|Hin].
    + destruct (Hbad cc x w Hx) as [e He]. congruence.
    + destruct (IH Hin cc1 w1) as (e & w' & He).
      exists e, w'. erewrite bind_inr; eauto.
Qed.

Lemma other_shape_rejected h cc x w :
  other_shape x = true ->
  add_configuration h cc x w = (inl (ValueError unknown_shape_msg), w).
Proof.
  destruct x; simpl; try discriminate; reflexivity.
Qed.

Lemma unsupported_extension_rejected h cc x w :
  unsupported_extension x = true ->
  add_configuration h cc x w
  = (inl (MS2RescoreConfigurationError unknown_extension_msg), w).
Proof.
  unfold unsupported_extension.
  destruct x; simpl; try discriminate; unfold add_configuration_file;
    intros H; apply andb_true_iff in H as [H1 H2];
    apply negb_true_iff in H1, H2; now rewrite H1, H2.
Qed.

(** An error of the loop is the error of [resolve_cascade] and of
    [parse_configurations]. *)
Lemma parse_configurations_loop_error pd h x w e w' :
  add_configurations h (new_cascade pd) (as_list x) w = (inl e, w') ->
  parse_configurations pd h x w = (inl e, w').
Proof.
  intros H. unfold parse_configurations, resolve_cascade.
  apply bind_inl. now apply bind_inl.
Qed.

(** ** The shapes of the configurations *)

(** C10: for every source [x] that is not itself a list,
    [parse_configurations(x)] is [parse_configurations([x])]: the same
    outcome and the same effect on the world, from every world. *)
Theorem single_source_is_singleton_list pd h x :
  is_list x = false ->
  forall w, parse_configurations pd h x w
            = parse_configurations pd h (PList [x]) w.
Proof.
  intros Hx w. unfold parse_configurations, resolve_cascade.
  assert (Hl : as_list x = as_list (PList [x])).
  { destruct x; simpl in *; try reflexivity. discriminate. }
  now rewrite Hl.
Qed.

Lemma single_source_is_singleton_list_witness :
  is_list (psm_source "data/psms.tsv" 2) = false /\
  parse_configurations shape_package lab_host (psm_source "data/psms.tsv" 2)
    lab_world
  = parse_configurations shape_package lab_host
      (PList [psm_source "data/psms.tsv" 2]) lab_world.
Proof.
  split.
  - reflexivity.
  - apply (single_source_is_singleton_list shape_package lab_host
             (psm_source "data/psms.tsv" 2)).
    reflexivity.
Defined.

(** C9: the dispatch on the extension ignores letter case.  A str or
    [Path] element whose extension is [.json] or [.toml] up to case is
    not an unsupported extension, and its file is opened and read with
    the reader of that format: for [.json] the loop adds the file as a
    JSON source, which the cascade opens and reads with the JSON reader
    once the defaults are merged; for [.toml] the loop itself opens the
    file and reads it with the TOML reader.  Either way the mapping that
    was read is merged over the defaults and the schema is applied. *)
Theorem extension_dispatch_ignores_case pd h cc x p filename ext :
  path_source x = Some (p, filename) ->
  ext = ".json" \/ ext = ".toml" ->
  eq_nocase (path_suffix p) ext ->
  unsupported_extension x = false /\
  (forall w,
      add_configuration h cc x w
      = if (ext =? ".json")%string
        then ret (add_json cc filename) w
        else (emit (IoOpen filename) ;;;
              d <- lift (toml_file h filename) ;;
              ret (add_dict cc d)) w) /\
  (forall w,
      resolve_cascade pd h x w
      = if (ext =? ".json")%string
        then (defaults <- lift (update_dict_recursively false 1 []
                                  (config_default pd)) ;;
              emit (IoOpen filename) ;;;
              d <- lift (json_file h filename) ;;
              merged_over pd defaults d) w
        else (emit (IoOpen filename) ;;;
              d <- lift (toml_file h filename) ;;
              defaults <- lift (update_dict_recursively false 1 []
                                  (config_default pd)) ;;
              merged_over pd defaults d) w).
Proof.
  intros Hsrc Hext Hcase. unfold eq_nocase in Hcase.
  assert (Hx : forall cc w, add_configuration h cc x w
                            = add_configuration_file h cc p filename w).
  { destruct x; simpl in Hsrc; try discriminate; now inversion Hsrc. }
  assert (Hl : as_list x = [x]).
  { destruct x; simpl in Hsrc; try discriminate; reflexivity. }
  unfold unsupported_extension. rewrite Hsrc.
  assert (Hres : forall w,
             resolve_cascade pd h x w
             = bind (add_configuration_file h (new_cascade pd) p filename)
                    (parse h) w).
  { intros w. unfold resolve_cascade. rewrite Hl. cbn [add_configurations].
    rewrite bind_assoc. unfold bind at 1 3. rewrite Hx.
    destruct (add_configuration_file h (new_cascade pd) p filename w)
      as [[e|cc1] w1]; reflexivity. }
  destruct Hext as [-> | ->].
  - assert (Hc : lower (path_suffix p) = ".json") by exact Hcase.
    rewrite Hc. split; [reflexivity|]. split.
    + intros w. rewrite Hx. unfold add_configuration_file. now rewrite Hc.
    + intros w. rewrite Hres. unfold add_configuration_file. rewrite Hc.
      change ((".json" =? ".json")%string) with true. cbv iota.
      unfold parse, merged_over, validated, bind, ret, lift, emit.
      cbn [add_json add_source new_cascade add_dict sources
             none_overrides_value max_recursion_depth validation_schema
             cascade load app].
      unfold bind, ret, lift, emit.
      destruct (update_dict_recursively false 1 [] (config_default pd))
        as [e|defaults]; [reflexivity|].
      destruct (json_file h filename) as [e|d]; [reflexivity|].
      destruct (update_dict_recursively false 1 defaults d) as [e|config];
        reflexivity.
  - assert (Hc : lower (path_suffix p) = ".toml") by exact Hcase.
    rewrite Hc. split; [reflexivity|]. split.
    + intros w. rewrite Hx. unfold add_configuration_file. now rewrite Hc.
    + intros w. rewrite Hres. unfold add_configuration_file. rewrite Hc.
      change ((".toml" =? ".json")%string) with false.
      change ((".toml" =? ".toml")%string) with true. cbv iota.
      unfold parse, merged_over, validated, bind, ret, lift, emit.
      destruct (toml_file h filename) as [e|d]; [reflexivity|].
      cbn [add_json add_source new_cascade add_dict sources
             none_overrides_value max_recursion_depth validation_schema
             cascade load app].
      unfold bind, ret, lift, emit.
      destruct (update_dict_recursively false 1 [] (config_default pd))
        as [e|defaults]; [reflexivity|].
      destruct (update_dict_recursively false 1 defaults d) as [e|config];
        reflexivity.
Qed.

Lemma extension_dispatch_ignores_case_witness :
  (unsupported_extension (PStr "conf/run.JSON") = false /\
   resolved_value
     (resolve_cascade shape_package lab_host (PStr "conf/run.JSON") lab_world)
     "ms2rescore" "psm_file" = inr (VStr "data/psms.tsv") /\
   trace (snd (resolve_cascade shape_package lab_host (PStr "conf/run.JSON")
                 lab_world))
   = [IoOpen "conf/run.JSON"]) /\
  (unsupported_extension (PPath (path_of "conf//run.Toml")) = false /\
   resolved_value
     (resolve_cascade shape_package lab_host
        (PPath (path_of "conf//run.Toml")) lab_world)
     "ms2rescore" "processes" = inr (VInt 2) /\
   trace (snd (resolve_cascade shape_package lab_host
                 (PPath (path_of "conf//run.Toml")) lab_world))
   = [IoOpen "conf/run.Toml"]).
Proof.
  split.
  - destruct (extension_dispatch_ignores_case shape_package lab_host
                (new_cascade shape_package)
                (PStr "conf/run.JSON") (path_of "conf/run.JSON")
                "conf/run.JSON" ".json" eq_refl (or_introl eq_refl) eq_refl)
      as (Hok & _ & Hres).
    split; [exact Hok|]. rewrite (Hres lab_world). split; reflexivity.
  - destruct (extension_dispatch_ignores_case shape_package lab_host
                (new_cascade shape_package)
                (PPath (path_of "conf//run.Toml")) (path_of "conf//run.Toml")
                "conf/run.Toml" ".toml" eq_refl (or_intror eq_refl) eq_refl)
      as (Hok & _ & Hres).
    split; [exact Hok|]. rewrite (Hres lab_world). split; reflexivity.
Defined.

(** C2, as the code has it: a list holding an element that is neither a
    mapping, a str, a [Path] nor a [Namespace] always makes
    [parse_configurations] fail, and when the elements before it were
    taken without error the failure is the [ValueError] of the loop,
    raised before anything else happens. *)
Theorem other_shape_raises_value_error pd h pre x post w :
  other_shape x = true ->
  (exists e w',
      parse_configurations pd h (PList (pre ++ x :: post)) w = (inl e, w')) /\
  (forall cc w1,
      add_configurations h (new_cascade pd) pre w = (inr cc, w1) ->
      parse_configurations pd h (PList (pre ++ x :: post)) w
      = (inl (ValueError unknown_shape_msg), w1)).
Proof.
  intros Hx. split.
  - destruct (add_configurations_rejects h other_shape) with
      (l := (pre ++ x :: post)%list) (x := x) (cc := new_cascade pd) (w := w)
      as (e & w' & He).
    + intros cc y w0 Hy. eexists. now apply other_shape_rejected.
    + apply in_elt.
    + exact Hx.
    + exists e, w'. now apply parse_configurations_loop_error.
  - intros cc w1 Hpre. apply parse_configurations_loop_error. simpl.
    rewrite add_configurations_app. erewrite bind_inr by exact Hpre.
    simpl. apply bind_inl. now apply other_shape_rejected.
Qed.

Lemma other_shape_raises_value_error_witness :
  other_shape (POther "42") = true /\
  parse_configurations shape_package lab_host
    (PList ([psm_source "data/psms.tsv" 2] ++ POther "42" :: [])) lab_world
  = (inl (ValueError unknown_shape_msg), lab_world).
Proof.
  split.
  - reflexivity.
  - apply (proj2 (other_shape_raises_value_error shape_package lab_host
                    [psm_source "data/psms.tsv" 2] (POther "42") [] lab_world
                    eq_refl)
             (add_dict (new_cascade shape_package)
                [("ms2rescore", VDict [("psm_file", VStr "data/psms.tsv");
                                       ("processes", VInt 2)])])).
    reflexivity.
Defined.

(** C2 fails as stated: the number 42 as the only element makes
    [parse_configurations] raise a [ValueError], which is not a
    configuration error. *)
Lemma other_shape_not_configuration_error :
  other_shape (POther "42") = true /\
  parse_configurations shape_package lab_host (PList [POther "42"]) lab_world
  = (inl (ValueError unknown_shape_msg), lab_world) /\
  is_configuration_error (ValueError unknown_shape_msg) = false.
Proof.
  repeat split.
Qed.

(** C5, as the code has it: a list holding a str or [Path] element whose
    extension is neither [.json] nor [.toml] always makes
    [parse_configurations] fail, without any of the file-name checks and
    with the file system as it was; when the elements before it were
    taken without error the failure is a configuration error whose
    message is the fixed text that lists [json] and [toml]. *)
Theorem unsupported_extension_raises_early pd h pre x post w :
  unsupported_extension x = true ->
  (exists e w',
      parse_configurations pd h (PList (pre ++ x :: post)) w = (inl e, w') /\
      untouched is_path_check w w') /\
  (forall cc w1,
      add_configurations h (new_cascade pd) pre w = (inr cc, w1) ->
      parse_configurations pd h (PList (pre ++ x :: post)) w
      = (inl (MS2RescoreConfigurationError unknown_extension_msg), w1)).
Proof.
  intros Hx. split.
  - destruct (add_configurations_rejects h unsupported_extension) with
      (l := (pre ++ x :: post)%list) (x := x) (cc := new_cascade pd) (w := w)
      as (e & w' & He).
    + intros cc y w0 Hy. eexists. now apply unsupported_extension_rejected.
    + apply in_elt.
    + exact Hx.
    + exists e, w'. split.
      * now apply parse_configurations_loop_error.
      * eapply quiet_add_configurations. exact He.
  - intros cc w1 Hpre. apply parse_configurations_loop_error. simpl.
    rewrite add_configurations_app. erewrite bind_inr by exact Hpre.
    simpl. apply bind_inl. now apply unsupported_extension_rejected.
Qed.

Lemma unsupported_extension_raises_early_witness :
  unsupported_extension (PStr "conf/run.yaml") = true /\
  parse_configurations shape_package lab_host
    (PList ([PStr "conf/run.JSON"] ++ PStr "conf/run.yaml" :: [])) lab_world
  = (inl (MS2RescoreConfigurationError unknown_extension_msg), lab_world).
Proof.
  split.
  - reflexivity.
  - apply (proj2 (unsupported_extension_raises_early shape_package lab_host
                    [PStr "conf/run.JSON"] (PStr "conf/run.yaml") []
                    lab_world eq_refl)
             (add_json (new_cascade shape_package) "conf/run.JSON")).
    reflexivity.
Defined.

(** C5 fails as stated: for [conf/run.yaml] the configuration error does
    not name the extension of the file; its message has neither [.yaml]
    nor [yaml] in it. *)
Lemma unsupported_extension_not_named :
  path_suffix (path_of "conf/run.yaml") = ".yaml" /\
  parse_configurations shape_package lab_host (PStr "conf/run.yaml") lab_world
  = (inl (MS2RescoreConfigurationError unknown_extension_msg), lab_world) /\
  contains "yaml" unknown_extension_msg = false.
Proof.
  repeat split.
Qed.

(** ** Item access and the steps of [parse_configurations] *)

Lemma getitem2_setitem2_same cfg s k x cfg' :
  setitem2 cfg s k x = inr cfg' -> getitem2 cfg' s k = inr x.
Proof.
  unfold setitem2, getitem2, getitem. destruct cfg as [| | | | |d]; try discriminate.
  destruct (lookup s d) as [[| | | | |sec]|] eqn:E; try discriminate.
  intros [= <-]. rewrite lookup_dict_set_same. now rewrite lookup_dict_set_same.
Qed.

Lemma getitem2_setitem2_other cfg s k x cfg' k' :
  setitem2 cfg s k x = inr cfg' -> k' <> k ->
  getitem2 cfg' s k' = getitem2 cfg s k'.
Proof.
  unfold setitem2, getitem2, getitem. destruct cfg as [| | | | |d]; try discriminate.
  destruct (lookup s d) as [[| | | | |sec]|] eqn:E; try discriminate.
  intros [= <-] Hne. rewrite lookup_dict_set_same.
  now rewrite lookup_dict_set_other by exact Hne.
Qed.

Lemma lift_inv {A} (x : exn + A) (w : world) r w' :
  lift x w = (r, w') -> x = r /\ w' = w.
Proof. unfold lift. now intros [= -> ->]. Qed.

Lemma ret_inv {A} (a : A) (w : world) r w' :
  ret a w = (r, w') -> r = inr a /\ w' = w.
Proof. unfold ret. now intros [= <- <-]. Qed.

(** One step through a computation known to return. *)
Ltac mstep H :=
  lazymatch type of H with
  | bind _ _ _ = (inr _, _) =>
      let a := fresh "a" in let w := fresh "w" in let Ha := fresh "Ha" in
      apply bind_ok_inv in H as (a & w & Ha & H)
  | (if ?b then _ else _) _ = _ => destruct b eqn:?
  | raise _ _ = (inr _, _) => discriminate H
  | lift _ _ = _ => apply lift_inv in H as [H ->]
  | ret _ _ = _ => apply ret_inv in H as [H ->]
  end.

Ltac msteps :=
  repeat match goal with
         | H : bind _ _ _ = (inr _, _) |- _ => mstep H
         | H : (if _ then _ else _) _ = (inr _, _) |- _ => mstep H
         | H : raise _ _ = (inr _, _) |- _ => mstep H
         | H : lift _ _ = (_, _) |- _ => mstep H
         | H : ret _ _ = (_, _) |- _ => mstep H
         end.

Lemma _validate_filenames_frame cfg w cfg' w' k :
  _validate_filenames cfg w = (inr cfg', w') ->
  k <> "psm_file" -> k <> "spectrum_path" -> k <> "output_path" ->
  getitem2 cfg' "ms2rescore" k = getitem2 cfg "ms2rescore" k.
Proof.
  unfold _validate_filenames. intros H K1 K2 K3.
  msteps;
    repeat match goal with
           | H : inr _ = inr _ |- _ => injection H as H; subst
           | H : setitem2 _ _ ?k' _ = inr ?c |- context [getitem2 ?c _ _] =>
               rewrite (getitem2_setitem2_other _ _ _ _ _ k H) by assumption
           end; reflexivity.
Qed.

Lemma _validate_processes_spec h cfg w cfg' w' p :
  getitem2 cfg "ms2rescore" "processes" = inr (VInt p) ->
  _validate_processes h cfg w = (inr cfg', w') ->
  w' = w /\
  getitem2 cfg' "ms2rescore" "processes"
  = inr (VInt (resolved_processes (cpu_count h) p)) /\
  forall k, k <> "processes" ->
            getitem2 cfg' "ms2rescore" k = getitem2 cfg "ms2rescore" k.
Proof.
  intros Hp. unfold _validate_processes, resolved_processes, bind, lift, ret.
  rewrite Hp. cbn [py_eq_int py_gt_int].
  assert (Hset : forall c,
             setitem2 cfg "ms2rescore" "processes" (VInt (cpu_count h)) = inr c ->
             getitem2 c "ms2rescore" "processes" = inr (VInt (cpu_count h)) /\
             forall k, k <> "processes" ->
                       getitem2 c "ms2rescore" k = getitem2 cfg "ms2rescore" k).
  { intros c Hc. split.
    - eapply getitem2_setitem2_same; eauto.
    - intros k Hk. eapply getitem2_setitem2_other; eauto. }
  destruct (p =? -1); cbn [orb].
  - intros [= H <-]. split; [reflexivity|]. now apply Hset.
  - destruct (p >? cpu_count h).
    + intros [= H <-]. split; [reflexivity|]. now apply Hset.
    + intros [= <- <-]. auto.
Qed.

Lemma lowercase_section_spec cfg k w cfg' w' :
  lowercase_section cfg k w = (inr cfg', w') ->
  w' = w /\
  (exists d, getitem2 cfg "ms2rescore" k = inr (VDict d) /\
             getitem2 cfg' "ms2rescore" k = inr (VDict (lower_keys d))) /\
  forall k', k' <> k ->
             getitem2 cfg' "ms2rescore" k' = getitem2 cfg "ms2rescore" k'.
Proof.
  unfold lowercase_section. intros H. msteps.
  split; [reflexivity|]. split.
  - destruct a as [| | | | |d]; try discriminate.
    injection Ha0 as <-. exists d. split; [exact Ha|].
    eapply getitem2_setitem2_same; eauto.
  - intros k' Hk. eapply getitem2_setitem2_other; eauto.
Qed.

Lemma parse_configurations_inv pd h x w cfg w' :
  parse_configurations pd h x w = (inr cfg, w') ->
  exists c0 w0 c1 c2 c3,
    resolve_cascade pd h x w = (inr c0, w0) /\
    _validate_filenames c0 w0 = (inr c1, w') /\
    _validate_processes h c1 w' = (inr c2, w') /\
    lowercase_section c2 "feature_generators" w' = (inr c3, w') /\
    lowercase_section c3 "rescoring_engine" w' = (inr cfg, w').
Proof.
  unfold parse_configurations. intros H.
  apply bind_ok_inv in H as (c0 & w0 & H0 & H).
  apply bind_ok_inv in H as (c1 & w1 & H1 & H).
  apply bind_ok_inv in H as (c2 & w2 & H2 & H).
  apply bind_ok_inv in H as (c3 & w3 & H3 & H).
  apply bind_ok_inv in H as (c4 & w4 & H4 & H).
  apply ret_inv in H as [[= <-] ->].
  assert (w4 = w3) as -> by (now apply lowercase_section_spec in H4).
  assert (w3 = w2) as -> by (now apply lowercase_section_spec in H3).
  assert (w2 = w1) as ->.
  { unfold _validate_processes in H2. msteps; reflexivity. }
  now exists c0, w0, c1, c2, c3.
Qed.

Lemma resolved_processes_bounds n p :
  resolved_processes n p <= n /\
  (p <> -1 -> resolved_processes n p <= p) /\
  (1 <= n -> p = -1 \/ 0 < p -> 0 < resolved_processes n p).
Proof.
  unfold resolved_processes.
  destruct (p =? -1) eqn:E1; destruct (p >? n) eqn:E2; cbn [orb];
    rewrite ?Z.eqb_eq, ?Z.eqb_neq in E1; rewrite Z.gtb_ltb in E2;
    rewrite ?Z.ltb_lt, ?Z.ltb_ge in E2; lia.
Qed.

(** C1, as the code has it: when [parse_configurations] returns, the
    [processes] value is the requested one, except that the sentinel -1
    and a request above the number of execution units of the host give
    that number.  So it never exceeds that number, and it is positive
    whenever the request was -1 or positive and the host has a unit. *)
Theorem processes_clamped pd h x w cfg0 w0 cfg w' p :
  resolve_cascade pd h x w = (inr cfg0, w0) ->
  getitem2 cfg0 "ms2rescore" "processes" = inr (VInt p) ->
  parse_configurations pd h x w = (inr cfg, w') ->
  exists p',
    getitem2 cfg "ms2rescore" "processes" = inr (VInt p') /\
    (p = -1 \/ p > cpu_count h -> p' = cpu_count h) /\
    (p <> -1 -> p <= cpu_count h -> p' = p) /\
    p' <= cpu_count h /\
    (1 <= cpu_count h -> p = -1 \/ 0 < p -> 0 < p').
Proof.
  intros Hres Hp Hparse.
  apply parse_configurations_inv in Hparse
    as (c0 & w1 & c1 & c2 & c3 & H0 & H1 & H2 & H3 & H4).
  rewrite Hres in H0. injection H0 as <- <-.
  assert (Hp1 : getitem2 c1 "ms2rescore" "processes" = inr (VInt p)).
  { rewrite (_validate_filenames_frame _ _ _ _ "processes" H1); [exact Hp| | |];
      discriminate. }
  destruct (_validate_processes_spec _ _ _ _ _ _ Hp1 H2) as (_ & Hp2 & _).
  destruct (lowercase_section_spec _ _ _ _ _ H3) as (_ & _ & F3).
  destruct (lowercase_section_spec _ _ _ _ _ H4) as (_ & _ & F4).
  exists (resolved_processes (cpu_count h) p). split.
  - rewrite F4 by discriminate. rewrite F3 by discriminate. exact Hp2.
  - pose proof (resolved_processes_bounds (cpu_count h) p) as (B1 & B2 & B3).
    repeat split; auto.
    + unfold resolved_processes. intros [->|Hgt].
      * reflexivity.
      * apply Z.gtb_gt in Hgt. rewrite Hgt. now rewrite orb_true_r.
    + unfold resolved_processes. intros Hne Hle.
      apply Z.eqb_neq in Hne. rewrite Hne.
      destruct (p >? cpu_count h) eqn:E; [|reflexivity].
      apply Z.gtb_gt in E. lia.
Qed.

Lemma processes_clamped_witness :
  exists p',
    resolved_value
      (parse_configurations shape_package lab_host
         (psm_source "data/psms.tsv" 9) lab_world)
      "ms2rescore" "processes" = inr (VInt p') /\
    p' = 4.
Proof.
  destruct (processes_clamped shape_package lab_host
              (psm_source "data/psms.tsv" 9) lab_world _ _ _ _ 9
              eq_refl eq_refl eq_refl) as (p' & Hget & Hover & _).
  exists p'. split.
  - exact Hget.
  - apply Hover. right. reflexivity.
Defined.

(** C1 fails as stated: [_validate_processes] has no lower bound, so a
    resolved value of 0 stays 0.  The merge passes over a 0 where the key
    already has a value, so a plain request of 0 gives the default; but
    after a source that empties the pipeline section a source that sets
    the section afresh, with 0 processes, is taken as it is: on a host
    with four execution units the cascade resolves to 0, it passes the
    schema, [parse_configurations] returns it, and it is not positive. *)
Lemma zero_processes_not_positive :
  resolved_value
    (_validate_processes lab_host
       (VDict [("ms2rescore", VDict [("processes", VInt 0)])]) lab_world)
    "ms2rescore" "processes" = inr (VInt 0) /\
  resolved_value
    (resolve_cascade shape_package lab_host
       (PList [emptied_section; whole_section "data/psms.tsv" 0]) lab_world)
    "ms2rescore" "processes" = inr (VInt 0) /\
  resolved_value
    (parse_configurations shape_package lab_host
       (PList [emptied_section; whole_section "data/psms.tsv" 0]) lab_world)
    "ms2rescore" "processes" = inr (VInt 0) /\
  ~ 0 < 0.
Proof.
  split; [reflexivity|]. split; [reflexivity|]. split; [reflexivity|]. lia.
Qed.




Lemma lower_keys_fold_keys d :
  forall acc, Forall is_lower (keys acc) ->
    Forall is_lower
      (keys (fold_left (fun acc kv => dict_set (lower (fst kv)) (snd kv) acc) d acc)).
Proof.
  induction d as [|[k v] d IH]; intros acc Hacc; simpl; [exact Hacc|].
  apply IH. apply Forall_forall. intros k' Hk'.
  apply keys_dict_set in Hk' as [->|Hk'].
  - apply lower_idem.
  - rewrite Forall_forall in Hacc. now apply Hacc.
Qed.




Lemma _validate_processes_frame h cfg w cfg' w' k :
  _validate_processes h cfg w = (inr cfg', w') ->
  k <> "processes" ->
  getitem2 cfg' "ms2rescore" k = getitem2 cfg "ms2rescore" k.
Proof.
  unfold _validate_processes. intros H Hk.
  msteps; try congruence; eapply getitem2_setitem2_other; eauto.
Qed.






(** ** The merge of the cascade *)

Lemma update_nil no levels orig :
  update_dict_recursively no levels orig [] = inr orig.
Proof. destruct levels; reflexivity. Qed.

Lemma update_cons no levels orig k v upd :
  update_dict_recursively no levels orig ((k, v) :: upd)
  = match merge_entry no levels orig k v with
    | inl e => inl e
    | inr orig' => update_dict_recursively no levels orig' upd
    end.
Proof. destruct levels; reflexivity. Qed.

Lemma merge_entry_fresh no levels orig k v :
  lookup k orig = None ->
  merge_entry no levels orig k v = inr (dict_set k v orig).
Proof.
  intros H. unfold merge_entry, has_key. rewrite H. cbn [negb].
  rewrite orb_true_r.
  destruct v as [| | | | |[|e dv]]; try reflexivity.
  destruct levels; reflexivity.
Qed.

(** One entry of a later mapping leaves the other keys alone. *)
Lemma merge_entry_other no levels orig k v K orig' :
  K <> k -> merge_entry no levels orig k v = inr orig' ->
  lookup K orig' = lookup K orig.
Proof.
  intros Hne H. unfold merge_entry in H.
  repeat match type of H with
         | inr _ = inr _ => injection H as <-
         | inl _ = inr _ => discriminate H
         | context [match ?x with _ => _ end] => destruct x
         end;
    try reflexivity; apply lookup_dict_set_other; exact Hne.
Qed.

(** A null for a key that is there is passed over. *)
Lemma merge_entry_null levels orig k v :
  lookup k orig = Some v ->
  merge_entry false levels orig k VNone = inr orig.
Proof.
  intros H. unfold merge_entry, has_key. now rewrite H.
Qed.

(** A mapping merged into one that shares none of its keys is appended. *)
Lemma update_disjoint no levels upd :
  forall orig, NoDup (keys orig ++ keys upd) ->
               update_dict_recursively no levels orig upd
               = inr (orig ++ upd)%list.
Proof.
  induction upd as [|[k v] upd IH]; intros orig Hnd.
  - now rewrite update_nil, app_nil_r.
  - rewrite update_cons.
    assert (Hk : lookup k orig = None).
    { apply lookup_None_keys. simpl in Hnd.
      apply NoDup_remove_2 in Hnd. intros Hin. apply Hnd.
      apply in_or_app. now left. }
    rewrite merge_entry_fresh by exact Hk.
    rewrite lookup_None_dict_set by exact Hk.
    rewrite IH.
    + now rewrite <- app_assoc.
    + unfold keys in *. rewrite map_app. simpl. now rewrite <- app_assoc.
Qed.

Lemma null_or_absent_cons k k1 x upd :
  null_or_absent k ((k1, x) :: upd) = true ->
  (k1 = k -> x = VNone) /\ null_or_absent k upd = true.
Proof.
  unfold null_or_absent. simpl. intros H.
  apply andb_true_iff in H as [H1 H2]. split; [|exact H2].
  intros ->. rewrite String.eqb_refl in H1. simpl in H1.
  now destruct x.
Qed.

(** Precedence skip at one level: a key that is null or absent in the
    later mapping keeps its value. *)
Lemma update_keeps levels upd :
  forall orig K v merged,
    lookup K orig = Some v ->
    null_or_absent K upd = true ->
    update_dict_recursively false levels orig upd = inr merged ->
    lookup K merged = Some v.
Proof.
  induction upd as [|[k x] upd IH]; intros orig K v merged HK Hnull H.
  - rewrite update_nil in H. now injection H as <-.
  - rewrite update_cons in H.
    destruct (merge_entry false levels orig k x) as [e|orig'] eqn:E;
      [discriminate|].
    apply null_or_absent_cons in Hnull as [Hx Hnull].
    apply (IH orig' K v merged); auto.
    destruct (String.eqb K k) eqn:EK.
    + apply String.eqb_eq in EK. subst k. rewrite (Hx eq_refl) in E.
      rewrite (merge_entry_null levels orig K v HK) in E.
      now injection E as <-.
    + apply String.eqb_neq in EK.
      now rewrite (merge_entry_other _ _ _ _ _ K _ EK E).
Qed.

(** Precedence skip one level down: a key of a section keeps its value
    when the later mapping has the section absent, null, or a mapping
    that is not empty and in which the key is null or absent. *)
Lemma update_keeps_in levels upd s k v :
  forall orig sec merged,
    lookup s orig = Some (VDict sec) -> lookup k sec = Some v ->
    null_or_absent_in s k upd = true ->
    update_dict_recursively false (S levels) orig upd = inr merged ->
    exists sec',
      lookup s merged = Some (VDict sec') /\ lookup k sec' = Some v.
Proof.
  induction upd as [|[k1 x] upd IH]; intros orig sec merged Hs Hk Hnull H.
  - rewrite update_nil in H. injection H as <-. eauto.
  - rewrite update_cons in H.
    destruct (merge_entry false (S levels) orig k1 x) as [e|orig'] eqn:E;
      [discriminate|].
    unfold null_or_absent_in in Hnull. simpl in Hnull.
    apply andb_true_iff in Hnull as [Hx Hnull].
    destruct (String.eqb k1 s) eqn:Es.
    + apply String.eqb_eq in Es. subst k1. simpl in Hx.
      destruct x as [| | | | |[|e bs]]; try discriminate.
      * rewrite (merge_entry_null _ orig s _ Hs) in E. injection E as <-.
        eapply IH; eauto.
      * unfold merge_entry in E. rewrite Hs in E.
        destruct (update_dict_recursively false levels sec (e :: bs))
          as [err|sec1] eqn:U; [discriminate|].
        injection E as <-.
        eapply IH; [apply lookup_dict_set_same| |exact Hnull|exact H].
        eapply update_keeps; eauto.
    + apply String.eqb_neq in Es.
      eapply IH; [|exact Hk|exact Hnull|exact H].
      rewrite (merge_entry_other _ _ _ _ _ s _ (not_eq_sym Es) E). exact Hs.
Qed.

Lemma cascade_app h no levels s1 s2 :
  forall acc w,
    cascade h no levels (s1 ++ s2) acc w
    = bind (cascade h no levels s1 acc)
           (fun d => cascade h no levels s2 d) w.
Proof.
  induction s1 as [|s s1 IH]; intros acc w; simpl.
  - reflexivity.
  - rewrite bind_assoc. apply bind_ext. intros d w1.
    rewrite bind_assoc. apply bind_ext. intros acc' w2. apply IH.
Qed.

(** What a computation over the world returns does not depend on the
    world, when that holds of its parts: the host answers the readers. *)
Lemma bind_fst {A B} (m : M A) (f : A -> M B) w w' :
  fst (m w) = fst (m w') ->
  (forall a w1 w2, fst (f a w1) = fst (f a w2)) ->
  fst (bind m f w) = fst (bind m f w').
Proof.
  unfold bind. destruct (m w) as [[e|a] w1], (m w') as [[e'|a'] w2];
    simpl; intros H Hf; try discriminate.
  - now injection H as ->.
  - injection H as ->. apply Hf.
Qed.

Lemma load_fst h s w w' : fst (load h s w) = fst (load h s w').
Proof. destruct s; reflexivity. Qed.

Lemma cascade_fst h no levels srcs :
  forall acc w w',
    fst (cascade h no levels srcs acc w)
    = fst (cascade h no levels srcs acc w').
Proof.
  induction srcs as [|s srcs IH]; intros acc w w'; simpl; [reflexivity|].
  apply bind_fst; [apply load_fst|]. intros d w1 w2.
  apply bind_fst; [reflexivity|]. intros acc' w3 w4. apply IH.
Qed.

(** The loop adds sources and leaves the schema and the options of the
    cascade alone. *)
Lemma add_configuration_options h cc x w cc' w' :
  add_configuration h cc x w = (inr cc', w') ->
  exists srcs, cc' = {| validation_schema := validation_schema cc;
                        none_overrides_value := none_overrides_value cc;
                        max_recursion_depth := max_recursion_depth cc;
                        sources := sources cc ++ srcs |}.
Proof.
  destruct x; simpl; unfold add_configuration_file; intros H; msteps;
    try discriminate;
    repeat match goal with
           | H : inr _ = inr _ |- _ => injection H as H; subst
           end;
    eexists; reflexivity.
Qed.

Lemma add_configurations_options h l :
  forall cc w cc' w',
    add_configurations h cc l w = (inr cc', w') ->
    validation_schema cc' = validation_schema cc /\
    none_overrides_value cc' = none_overrides_value cc /\
    max_recursion_depth cc' = max_recursion_depth cc.
Proof.
  induction l as [|x l IH]; intros cc w cc' w' H; simpl in H.
  - apply ret_inv in H as [[= <-] _]. auto.
  - apply bind_ok_inv in H as (cc1 & w1 & H1 & H).
    apply IH in H as (V & N & D).
    apply add_configuration_options in H1 as [srcs ->]. auto.
Qed.

Lemma resolve_cascade_inv pd h x w cfg w1 :
  resolve_cascade pd h x w = (inr cfg, w1) ->
  exists cc wa d,
    add_configurations h (new_cascade pd) (as_list x) w = (inr cc, wa) /\
    cascade h false 1 (sources cc) [] wa = (inr d, w1) /\
    validation_schema cc = config_schema pd /\
    config_schema pd (VDict d) = None /\
    cfg = VDict d.
Proof.
  unfold resolve_cascade. intros H.
  apply bind_ok_inv in H as (cc & wa & Hadd & H).
  destruct (add_configurations_options _ _ _ _ _ _ Hadd) as (V & N & D).
  simpl in V, N, D.
  unfold parse in H. rewrite N, D, V in H.
  apply bind_ok_inv in H as (d & w2 & Hc & H).
  destruct (config_schema pd (VDict d)) eqn:E; [discriminate|].
  apply ret_inv in H as [[= ->] ->].
  exists cc, wa, d. auto.
Qed.

Lemma add_configuration_source h cc x w cc' w' :
  add_configuration h cc x w = (inr cc', w') ->
  exists s, cc' = add_source cc s /\ stands_for h x s.
Proof.
  assert (Hfile : forall p filename,
             add_configuration_file h cc p filename w = (inr cc', w') ->
             exists s, cc' = add_source cc s /\
                       forall w0 b w0',
                         load h s w0 = (inr b, w0') ->
                         (if (lower (path_suffix p) =? ".json")%string
                          then match json_file h filename with
                               | inr d => Some d
                               | inl _ => None
                               end
                          else if (lower (path_suffix p) =? ".toml")%string
                          then match toml_file h filename with
                               | inr d => Some d
                               | inl _ => None
                               end
                          else None) = Some b).
  { intros p filename H. unfold add_configuration_file in H.
    destruct (lower (path_suffix p) =? ".json")%string.
    - apply ret_inv in H as [[= ->] _].
      exists (JSONConfigSource filename). split; [reflexivity|].
      intros w0 b w0' Hl. cbn [load] in Hl.
      unfold bind, emit, lift in Hl. injection Hl as Hl _. now rewrite Hl.
    - destruct (lower (path_suffix p) =? ".toml")%string; [|discriminate].
      msteps. injection H as ->.
      exists (DictConfigSource a0). split; [reflexivity|].
      intros wl b wl' Hl. apply ret_inv in Hl as [[= ->] _].
      now rewrite Ha0. }
  destruct x; simpl; intros H; try discriminate.
  - apply ret_inv in H as [[= ->] _].
    exists (DictConfigSource d). split; [reflexivity|].
    intros w0 b w0' Hl. apply ret_inv in Hl as [[= ->] _]. reflexivity.
  - apply Hfile in H as (src & -> & Hl). exists src. split; [reflexivity|].
    exact Hl.
  - apply Hfile in H as (src & -> & Hl). exists src. split; [reflexivity|].
    exact Hl.
  - apply ret_inv in H as [[= ->] _].
    exists (NamespaceConfigSource attrs "ms2rescore"). split; [reflexivity|].
    intros w0 b w0' Hl. apply ret_inv in Hl as [[= ->] _]. reflexivity.
Qed.

Lemma add_configurations_sources h l :
  forall cc w cc' w',
    add_configurations h cc l w = (inr cc', w') ->
    exists srcs,
      sources cc' = (sources cc ++ srcs)%list /\
      Forall2 (stands_for h) l srcs.
Proof.
  induction l as [|x l IH]; intros cc w cc' w' H; simpl in H.
  - apply ret_inv in H as [[= <-] _]. exists []. split.
    + now rewrite app_nil_r.
    + constructor.
  - apply bind_ok_inv in H as (cc1 & w1 & H1 & H).
    apply add_configuration_source in H1 as (s & -> & Hs).
    apply IH in H as (srcs & Hsrcs & Hall).
    exists (s :: srcs). split.
    + rewrite Hsrcs. simpl. now rewrite <- app_assoc.
    + now constructor.
Qed.

(** The cascade of a list with more elements at the end resolves to what
    the sources of those elements make of the mapping the earlier
    elements resolve to. *)
Lemma resolve_cascade_later pd h pre later w cfg1 w1 cfg2 w2 :
  resolve_cascade pd h (PList pre) w = (inr cfg1, w1) ->
  resolve_cascade pd h (PList (pre ++ later)) w = (inr cfg2, w2) ->
  exists d1 d2 srcs w3,
    cfg1 = VDict d1 /\ cfg2 = VDict d2 /\
    Forall2 (stands_for h) later srcs /\
    cascade h false 1 srcs d1 w3 = (inr d2, w2).
Proof.
  intros H1 H2.
  apply resolve_cascade_inv in H1 as (cc1 & wa1 & d1 & A1 & C1 & _ & _ & ->).
  apply resolve_cascade_inv in H2 as (cc2 & wa2 & d2 & A2 & C2 & _ & _ & ->).
  simpl in A1, A2.
  rewrite add_configurations_app in A2. erewrite bind_inr in A2 by exact A1.
  apply add_configurations_sources in A2 as (srcs & Hsrcs & Hall).
  rewrite Hsrcs, cascade_app in C2.
  apply bind_ok_inv in C2 as (d1' & w3 & C1' & C2).
  pose proof (cascade_fst h false 1 (sources cc1) [] wa1 wa2) as Hfst.
  rewrite C1, C1' in Hfst. simpl in Hfst. injection Hfst as <-.
  exists d1, d2, srcs, w3. auto.
Qed.

(** A property of the accumulated mapping that every merge of a mapping
    passing [test] keeps is kept by the sources of later elements that
    all contribute such mappings. *)
Lemma cascade_keeps h (test : dict -> bool) (P : dict -> Prop) :
  (forall acc b acc',
      P acc -> test b = true ->
      update_dict_recursively false 1 acc b = inr acc' -> P acc') ->
  forall later srcs,
    Forall2 (stands_for h) later srcs ->
    all_mappings h test later = true ->
    forall acc w d w',
      P acc -> cascade h false 1 srcs acc w = (inr d, w') -> P d.
Proof.
  intros Hstep later srcs Hall.
  induction Hall as [|x s later srcs Hs Hall IH]; intros Htest acc w d w' HP H.
  - simpl in H. apply ret_inv in H as [[= <-] _]. exact HP.
  - simpl in H, Htest. apply andb_true_iff in Htest as [Hx Htest].
    apply bind_ok_inv in H as (b & wb & Hl & H).
    apply bind_ok_inv in H as (acc' & wc & Hm & H).
    apply lift_inv in Hm as [Hm ->].
    rewrite (Hs _ _ _ Hl) in Hx.
    apply (IH Htest acc' wb d w'); [|exact H].
    now apply (Hstep acc b acc').
Qed.

(** C6, as the cascade has it: a key at the top level, or directly inside
    a section, that is null or absent in every later source keeps the
    concrete value the earlier sources resolve it to.  Inside a section
    this needs that no later source has the section as an empty mapping,
    which would replace the section. *)
Theorem null_does_not_override pd h pre later w cfg1 w1 cfg2 w2 :
  resolve_cascade pd h (PList pre) w = (inr cfg1, w1) ->
  resolve_cascade pd h (PList (pre ++ later)) w = (inr cfg2, w2) ->
  (forall k v, getitem cfg1 k = inr v -> v <> VNone ->
               all_mappings h (null_or_absent k) later = true ->
               getitem cfg2 k = inr v) /\
  (forall s k v, getitem2 cfg1 s k = inr v -> v <> VNone ->
                 all_mappings h (null_or_absent_in s k) later = true ->
                 getitem2 cfg2 s k = inr v).
Proof.
  intros H1 H2.
  destruct (resolve_cascade_later _ _ _ _ _ _ _ _ _ H1 H2)
    as (d1 & d2 & srcs & w3 & -> & -> & Hall & Hc).
  split.
  - intros k v Hget Hv Hnull. cbn [getitem] in *.
    destruct (lookup k d1) as [v1|] eqn:E; [|discriminate].
    injection Hget as ->.
    rewrite (cascade_keeps h (null_or_absent k)
               (fun d => lookup k d = Some v)
               (fun acc b acc' HP Hb Hm =>
                  update_keeps 1 b acc k v acc' HP Hb Hm)
               later srcs Hall Hnull d1 w3 d2 w2 E Hc).
    reflexivity.
  - intros s k v Hget Hv Hnull. unfold getitem2 in *. cbn [getitem] in *.
    destruct (lookup s d1) as [[| | | | |sec]|] eqn:Es; try discriminate.
    cbn [getitem] in Hget.
    destruct (lookup k sec) as [v1|] eqn:Ek; [|discriminate].
    injection Hget as ->.
    destruct (cascade_keeps h (null_or_absent_in s k)
                (fun d => exists sec', lookup s d = Some (VDict sec') /\
                                       lookup k sec' = Some v)
                (fun acc b acc' HP Hb Hm =>
                   match HP with
                   | ex_intro _ sec0 (conj Hs0 Hk0) =>
                       update_keeps_in 0 b s k v acc sec0 acc' Hs0 Hk0 Hb Hm
                   end)
                later srcs Hall Hnull d1 w3 d2 w2
                (ex_intro _ sec (conj Es Ek)) Hc)
      as (sec' & Hs' & Hk').
    rewrite Hs'. cbn [getitem]. now rewrite Hk'.
Qed.

Lemma null_does_not_override_witness :
  all_mappings lab_host (null_or_absent_in "ms2rescore" "processes")
    [PNamespace [("processes", VNone)]; PStr "conf/run.JSON"] = true /\
  resolved_value
    (resolve_cascade shape_package lab_host
       (PList [psm_source "data/psms.tsv" 3]) lab_world)
    "ms2rescore" "processes" = inr (VInt 3) /\
  resolved_value
    (resolve_cascade shape_package lab_host
       (PList ([psm_source "data/psms.tsv" 3]
               ++ [PNamespace [("processes", VNone)];
                   PStr "conf/run.JSON"])) lab_world)
    "ms2rescore" "processes" = inr (VInt 3).
Proof.
  split; [reflexivity|]. split; [reflexivity|].
  apply (proj2 (null_does_not_override shape_package lab_host
                  [psm_source "data/psms.tsv" 3]
                  [PNamespace [("processes", VNone)]; PStr "conf/run.JSON"]
                  lab_world _ lab_world _ _
                  eq_refl eq_refl)
           "ms2rescore" "processes" (VInt 3)).
  - reflexivity.
  - discriminate.
  - reflexivity.
Defined.

(** C6 fails as stated: below a section a later mapping replaces the
    earlier one whole.  The defaults give the feature generator [ms2pip]
    its options; a later source in which [ms2pip] is null resolves it to
    null, and a later source in which [ms2pip] is absent resolves the
    feature generators without it. *)
Lemma null_overrides_below_a_section :
  resolved_value
    (resolve_cascade shape_package lab_host
       (PList [psm_source "data/psms.tsv" 3]) lab_world)
    "ms2rescore" "feature_generators"
  = inr (VDict [("ms2pip", VDict [("model", VStr "HCD")])]) /\
  resolved_value
    (resolve_cascade shape_package lab_host
       (PList [psm_source "data/psms.tsv" 3;
               PDict [("ms2rescore",
                       VDict [("feature_generators",
                               VDict [("ms2pip", VNone)])])]]) lab_world)
    "ms2rescore" "feature_generators"
  = inr (VDict [("ms2pip", VNone)]) /\
  resolved_value
    (resolve_cascade shape_package lab_host
       (PList [psm_source "data/psms.tsv" 3;
               PDict [("ms2rescore",
                       VDict [("feature_generators",
                               VDict [("deeplc", VDict [])])])]]) lab_world)
    "ms2rescore" "feature_generators"
  = inr (VDict [("deeplc", VDict [])]).
Proof.
  split; [reflexivity|]. split; reflexivity.
Qed.

(** C7: with an empty list of sources the cascade resolves, to the
    compiled-in defaults exactly and without touching the world, as long
    as the defaults pass the schema. *)
Theorem empty_list_yields_defaults pd h w :
  NoDup (keys (config_default pd)) ->
  config_schema pd (VDict (config_default pd)) = None ->
  resolve_cascade pd h (PList []) w = (inr (VDict (config_default pd)), w).
Proof.
  intros Hnd Hschema.
  unfold resolve_cascade. change (as_list (PList [])) with (@nil pyobj).
  cbn [add_configurations].
  rewrite (bind_inr _ _ w (new_cascade pd) w) by reflexivity.
  unfold parse.
  change (none_overrides_value (new_cascade pd)) with false.
  change (max_recursion_depth (new_cascade pd)) with 1%nat.
  change (validation_schema (new_cascade pd)) with (config_schema pd).
  change (sources (new_cascade pd)) with [DictConfigSource (config_default pd)].
  rewrite (bind_inr _ _ w (config_default pd) w).
  - now rewrite Hschema.
  - cbn [cascade load]. unfold bind, ret, lift.
    now rewrite (update_disjoint false 1 (config_default pd) []) by exact Hnd.
Qed.

Lemma empty_list_yields_defaults_witness :
  resolve_cascade shape_package lab_host (PList []) lab_world
  = (inr (VDict shape_default), lab_world).
Proof.
  apply (empty_list_yields_defaults shape_package lab_host lab_world).
  - simpl. constructor; [intros []|constructor].
  - reflexivity.
Defined.

(** ** The pre-flight checks of the orchestrator *)

(** C3, as the code has it: when [ms2pip -h] fails and the Percolator
    check does not stop the run first, [main] logs a critical message and
    leaves through [exit(0)] before any pipeline stage: the exit status
    of the process is 0. *)
Theorem ms2pip_missing_exits_zero t config rp tr :
  getitem2 config "general" "run_percolator" = inr rp ->
  truthy rp = false \/ getstatusoutput t "percolator -h" = 0 ->
  getstatusoutput t "ms2pip -h" <> 0 ->
  exists evs,
    main t config tr = (inl (SystemExit 0), (tr ++ evs)%list) /\
    exit_status (fst (main t config tr)) = 0 /\
    Forall (fun e => is_stage_event e = false) evs.
Proof.
  intros Hrp Hperc Hms2pip.
  apply Z.eqb_neq in Hms2pip.
  assert (Hpre : exists evs,
             preflight t config tr = (inl (SystemExit 0), (tr ++ evs)%list) /\
             Forall (fun e => is_stage_event e = false) evs).
  { unfold preflight, bind at 1, lift. rewrite Hrp.
    destruct Hperc as [Hfalse | Hcall].
    - rewrite Hfalse.
      exists [EvStatus "ms2pip -h"; EvLog "critical" ms2pip_missing_msg].
      split.
      + unfold bind, ret, record, log, record, exit, raise. rewrite Hms2pip.
        cbn [negb]. now rewrite <- app_assoc.
      + repeat constructor.
    - destruct (truthy rp).
      + exists [EvStatus "percolator -h"; EvStatus "ms2pip -h";
                EvLog "critical" ms2pip_missing_msg].
        split.
        * unfold bind, ret, record, log, record, exit, raise.
          rewrite Hcall, Hms2pip. cbn [negb Z.eqb].
          now rewrite <- !app_assoc.
        * repeat constructor.
      + exists [EvStatus "ms2pip -h"; EvLog "critical" ms2pip_missing_msg].
        split.
        * unfold bind, ret, record, log, record, exit, raise.
          rewrite Hms2pip. cbn [negb]. now rewrite <- app_assoc.
        * repeat constructor. }
  destruct Hpre as (evs & Hpre & Hevs).
  exists evs.
  assert (Hmain : main t config tr = (inl (SystemExit 0), (tr ++ evs)%list)).
  { unfold main. now apply bind_inl. }
  rewrite Hmain. auto.
Qed.

Lemma ms2pip_missing_exits_zero_witness :
  main bare_tools (maxquant_config false) []
  = (inl (SystemExit 0),
     [EvStatus "ms2pip -h"; EvLog "critical" ms2pip_missing_msg]) /\
  exit_status (fst (main bare_tools (maxquant_config false) [])) = 0.
Proof.
  destruct (ms2pip_missing_exits_zero bare_tools (maxquant_config false)
              (VBool false) [] eq_refl (or_introl eq_refl))
    as (evs & Hmain & Hstatus & _).
  - discriminate.
  - split; [reflexivity | exact Hstatus].
Defined.

(** ** Runs on concrete inputs *)

Example suffix_of_upper_case_json :
  path_suffix (path_of "conf/run.JSON") = ".JSON" /\
  lower (path_suffix (path_of "conf/run.JSON")) = ".json".
Proof. split; reflexivity. Qed.

Example suffix_of_hidden_file : path_suffix (path_of "conf/.json") = "".
Proof. reflexivity. Qed.

Example path_is_normalised : path_str (path_of "data//./psms.tsv") = "data/psms.tsv".
Proof. reflexivity. Qed.

(** Two keys that differ only in case: the later one wins. *)
Example lower_keys_collision :
  lower_keys [("MS2PIP", VInt 1); ("ms2pip", VInt 2)] = [("ms2pip", VInt 2)].
Proof. reflexivity. Qed.

(** A missing output directory is created with its ancestors. *)
Example output_path_is_created :
  snd (parse_configurations shape_package lab_host
         (PList [psm_source "data/psms.tsv" 2;
                 PNamespace [("output_path", VStr "out/run1")]]) lab_world)
  = {| fs := {| files := ["data/psms.tsv"];
                dirs := ["data"; "out"; "out/run1"] |};
       trace := [IoIsFile "data/psms.tsv"; IoIsDir "out/run1";
                 IoMkdir "out/run1"] |}.
Proof. reflexivity. Qed.

(** A request of 0 processes over the defaults is passed over by the
    merge, as a null is: the default -1 stays, and the host's four units
    are what [parse_configurations] returns. *)
Example zero_request_is_passed_over :
  resolved_value
    (resolve_cascade shape_package lab_host
       (psm_source "data/psms.tsv" 0) lab_world)
    "ms2rescore" "processes" = inr (VInt (-1)) /\
  resolved_value
    (parse_configurations shape_package lab_host
       (psm_source "data/psms.tsv" 0) lab_world)
    "ms2rescore" "processes" = inr (VInt 4).
Proof. split; reflexivity. Qed.

(** An empty mapping in a later source empties the section; a mapping
    that is not empty is merged into it key by key. *)
Example empty_mapping_replaces :
  update_dict_recursively false 1
    [("ms2rescore", VDict [("processes", VInt 3)])]
    [("ms2rescore", VDict [])]
  = inr [("ms2rescore", VDict [])] /\
  update_dict_recursively false 1
    [("ms2rescore", VDict [("processes", VInt 3)])]
    [("ms2rescore", VDict [("psm_file", VStr "data/psms.tsv")])]
  = inr [("ms2rescore", VDict [("processes", VInt 3);
                               ("psm_file", VStr "data/psms.tsv")])].
Proof. split; reflexivity. Qed.

(** A mapping in a later source over a value that is not a mapping is an
    error of the merge. *)
Example mapping_over_text_fails :
  update_dict_recursively false 1
    [("ms2rescore", VStr "none")]
    [("ms2rescore", VDict [("processes", VInt 3)])]
  = inl TypeError.
Proof. reflexivity. Qed.

(** Without [psm_file] the defaults alone do not pass the post-validation. *)
Example defaults_alone_lack_psm_file :
  fst (parse_configurations shape_package lab_host (PList []) lab_world)
  = inl (MS2RescoreConfigurationError psm_file_missing_msg).
Proof. reflexivity. Qed.

(** With Percolator switched on and missing, the run leaves through
    [exit(1)]. *)
Example percolator_missing_exits_one :
  exit_status (fst (main bare_tools (maxquant_config true) [])) = 1.
Proof. reflexivity. Qed.

(** With every executable callable the run reaches its last message. *)
Example full_run_finishes :
  fst (main full_tools (maxquant_config true) []) = inr tt /\
  last (snd (main full_tools (maxquant_config true) [])) (EvLog "" "")
  = EvLog "info" "MS2ReScore finished!".
Proof. split; reflexivity. Qed.

(** * Further properties *)

(** ** The file system under [parse_configurations] *)

Lemma grows_refl w : grows w w.
Proof. split; [reflexivity|]. exists []. now rewrite app_nil_r. Qed.

Lemma grows_trans w1 w2 w3 : grows w1 w2 -> grows w2 w3 -> grows w1 w3.
Proof.
  intros [F1 [e1 D1]] [F2 [e2 D2]]. split; [congruence|].
  exists (e1 ++ e2)%list. now rewrite D2, D1, app_assoc.
Qed.

Lemma untouched_grows bad w w' : untouched bad w w' -> grows w w'.
Proof.
  intros [F _]. split; [now rewrite F|]. exists []. now rewrite F, app_nil_r.
Qed.

Lemma growing_pure {A} (m : M A) :
  (forall w r w', m w = (r, w') -> fs w' = fs w) -> growing m.
Proof.
  intros H w r w' Hm. apply H in Hm. split; [now rewrite Hm|].
  exists []. now rewrite Hm, app_nil_r.
Qed.

Lemma growing_bind {A B} (m : M A) (f : A -> M B) :
  growing m -> (forall a, growing (f a)) -> growing (bind m f).
Proof.
  intros Hm Hf w r w' H.
  apply bind_inv in H as [(e & H & _)|(a & w1 & H1 & H2)].
  - eapply Hm; eauto.
  - eapply grows_trans; [eapply Hm|eapply Hf]; eauto.
Qed.

Lemma growing_ret {A} (a : A) : growing (ret a).
Proof. apply growing_pure. now intros w r w' [= _ <-]. Qed.

Lemma growing_raise {A} e : growing (@raise world A e).
Proof. apply growing_pure. now intros w r w' [= _ <-]. Qed.

Lemma growing_lift {A} (x : exn + A) : growing (lift x).
Proof. apply growing_pure. now intros w r w' [= _ <-]. Qed.

Lemma growing_is_file p : growing (is_file p).
Proof. apply growing_pure. now intros w r w' [= _ <-]. Qed.

Lemma growing_path_exists p : growing (path_exists p).
Proof. apply growing_pure. now intros w r w' [= _ <-]. Qed.

Lemma growing_is_dir p : growing (is_dir p).
Proof. apply growing_pure. now intros w r w' [= _ <-]. Qed.

Lemma growing_mkdir_parents p : growing (mkdir_parents p).
Proof.
  intros w r w'. unfold mkdir_parents, bind, emit, get_fs, put_fs, raise.
  cbn [fs trace].
  destruct (filter _ _) as [|a l].
  - intros [= _ <-]. split; [reflexivity|]. eexists. reflexivity.
  - destruct (String.eqb a (path_str p)); intros [= _ <-];
      (split; [reflexivity | exists []; cbn [fs dirs]; now rewrite app_nil_r]).
Qed.

Create HintDb growing.

#[local] Hint Resolve growing_bind growing_ret growing_raise growing_lift
  growing_is_file growing_path_exists growing_is_dir growing_mkdir_parents
  : growing.

Lemma growing__validate_filenames cfg : growing (_validate_filenames cfg).
Proof.
  unfold _validate_filenames.
  repeat first
    [ apply growing_is_file | apply growing_path_exists | apply growing_is_dir
    | apply growing_mkdir_parents | apply growing_lift | apply growing_ret
    | apply growing_raise
    | match goal with
      | |- growing (if ?b then _ else _) => destruct b
      end
    | apply growing_bind; [|intros ?] ].
Qed.

Lemma pure__validate_processes h cfg w r w' :
  _validate_processes h cfg w = (r, w') -> w' = w.
Proof.
  unfold _validate_processes, bind, lift, ret.
  destruct (getitem2 cfg "ms2rescore" "processes") as [e|p];
    [now intros [= _ <-]|].
  destruct (py_eq_int p (-1)).
  - now intros [= _ <-].
  - destruct (py_gt_int p (cpu_count h)) as [e|[]]; now intros [= _ <-].
Qed.

Lemma pure_lowercase_section cfg k w r w' :
  lowercase_section cfg k w = (r, w') -> w' = w.
Proof.
  unfold lowercase_section, bind, lift.
  destruct (getitem2 cfg "ms2rescore" k) as [e|sec]; [now intros [= _ <-]|].
  destruct (items sec) as [e|its]; now intros [= _ <-].
Qed.

Lemma growing_parse_configurations pd h x :
  growing (parse_configurations pd h x).
Proof.
  unfold parse_configurations.
  apply growing_bind.
  { intros w r w' H. eapply untouched_grows.
    eapply quiet_resolve_cascade. exact H. }
  intros c0. apply growing_bind; [apply growing__validate_filenames|].
  intros c1. apply growing_bind.
  { apply growing_pure. intros w r w' H.
    apply pure__validate_processes in H. now subst. }
  intros c2. apply growing_bind.
  { apply growing_pure. intros w r w' H.
    apply pure_lowercase_section in H. now subst. }
  intros c3. apply growing_bind; [|intros c4; apply growing_ret].
  apply growing_pure. intros w r w' H.
  apply pure_lowercase_section in H. now subst.
Qed.

(** X1: whatever its outcome, [parse_configurations] creates and deletes
    no file and deletes no directory: the files are the same and the
    directories are the old ones, possibly with new ones after them. *)
Theorem parse_configurations_only_adds_directories pd h x w :
  grows w (snd (parse_configurations pd h x w)).
Proof.
  destruct (parse_configurations pd h x w) as [r w'] eqn:E.
  exact (growing_parse_configurations pd h x w r w' E).
Qed.

(** ** The file-name checks *)

Lemma is_file_inv p w r w' :
  is_file p w = (r, w') ->
  r = inr (mem (path_str p) (files (fs w))) /\
  w' = {| fs := fs w; trace := (trace w ++ [IoIsFile (path_str p)])%list |}.
Proof. now intros [= <- <-]. Qed.

Lemma path_exists_inv p w r w' :
  path_exists p w = (r, w') ->
  r = inr (mem (path_str p) (files (fs w)) || mem (path_str p) (dirs (fs w)))%bool /\
  w' = {| fs := fs w; trace := (trace w ++ [IoExists (path_str p)])%list |}.
Proof. now intros [= <- <-]. Qed.

Lemma is_dir_inv p w r w' :
  is_dir p w = (r, w') ->
  r = inr (mem (path_str p) (dirs (fs w))) /\
  w' = {| fs := fs w; trace := (trace w ++ [IoIsDir (path_str p)])%list |}.
Proof. now intros [= <- <-]. Qed.

Lemma mem_In s l : mem s l = true <-> In s l.
Proof.
  unfold mem. rewrite existsb_exists. split.
  - intros (x & Hin & E). apply String.eqb_eq in E. now subst.
  - intros Hin. exists s. split; [exact Hin|apply String.eqb_refl].
Qed.

Lemma In_prefixes ps : ps <> [] -> In ps (prefixes ps).
Proof.
  induction ps as [|a ps IH]; [congruence|]. intros _. simpl.
  destruct ps as [|b ps]; [now left|].
  right. apply in_map. apply IH. discriminate.
Qed.

(** A directory that [mkdir_parents] was asked for, and that is more than
    the root or the current directory, is there afterwards. *)
Lemma mkdir_parents_creates p w w' :
  mkdir_parents p w = (inr tt, w') ->
  parts p <> [] ->
  mem (path_str p) (dirs (fs w')) = true.
Proof.
  unfold mkdir_parents, bind, emit, get_fs, put_fs, raise. cbn [fs trace].
  destruct (filter _ _) as [|a l].
  - intros [= <-] Hparts. cbn [fs dirs].
    destruct (mem (path_str p) (dirs (fs w))) eqn:E.
    + apply mem_In. apply in_or_app. left. now apply mem_In.
    + apply mem_In. apply in_or_app. right. apply filter_In. split.
      * apply in_map_iff. exists p. split; [reflexivity|].
        unfold path_chain. apply in_map_iff. exists (parts p). split.
        -- now destruct p.
        -- now apply In_prefixes.
      * now rewrite E.
  - destruct (String.eqb a (path_str p)); discriminate.
Qed.

Lemma getitem2_setitem2_defined cfg s k v k' x :
  getitem2 cfg s k = inr v -> exists cfg', setitem2 cfg s k' x = inr cfg'.
Proof.
  unfold getitem2, getitem, setitem2.
  destruct cfg as [| | | | |d]; try discriminate.
  destruct (lookup s d) as [[| | | | |sec]|]; try discriminate. eauto.
Qed.

(** What a returning [_validate_filenames] has checked and written. *)
Lemma _validate_filenames_inv cfg w cfg' w' :
  _validate_filenames cfg w = (inr cfg', w') ->
  exists s,
    getitem2 cfg "ms2rescore" "psm_file" = inr (VStr s) /\
    mem (path_str (path_of s)) (files (fs w)) = true /\
    getitem2 cfg' "ms2rescore" "psm_file" = inr (VStr (path_str (path_of s))) /\
    exists op,
      getitem2 cfg "ms2rescore" "output_path" = inr op /\
      ((truthy op = false /\ fs w' = fs w /\
        getitem2 cfg' "ms2rescore" "output_path"
        = inr (VStr (path_str (path_parent (path_of s))))) \/
       (exists o, op = VStr o /\ o <> "" /\
                  getitem2 cfg' "ms2rescore" "output_path"
                  = inr (VStr (path_str (path_of o))) /\
                  (parts (path_of o) <> [] ->
                   mem (path_str (path_of o)) (dirs (fs w')) = true))).
Proof.
  unfold _validate_filenames. intros H.
  apply bind_ok_inv in H as (psm & w1 & Hpsm & H).
  apply lift_inv in Hpsm as [Hpsm ->].
  destruct (negb (truthy psm)) eqn:Tpsm; [discriminate|].
  apply bind_ok_inv in H as (id_file & w1 & Hid & H).
  apply lift_inv in Hid as [Hid ->].
  destruct psm as [| | |s| |]; try discriminate. injection Hid as <-.
  apply bind_ok_inv in H as (found & w1 & Hfound & H).
  apply is_file_inv in Hfound as [[= ->] ->].
  destruct (mem (path_str (path_of s)) (files (fs w))) eqn:Hmem;
    [|discriminate]. cbn [negb] in H.
  apply bind_ok_inv in H as (c1 & w1 & Hc1 & H).
  apply lift_inv in Hc1 as [Hc1 ->].
  apply bind_ok_inv in H as (sp & w1 & Hsp & H).
  apply lift_inv in Hsp as [Hsp ->].
  apply bind_ok_inv in H as (c2 & w2 & Hc2 & H).
  assert (Hstep : fs w2 = fs w /\
                  (forall k, k <> "psm_file" -> k <> "spectrum_path" ->
                             getitem2 c2 "ms2rescore" k
                             = getitem2 cfg "ms2rescore" k) /\
                  getitem2 c2 "ms2rescore" "psm_file"
                  = inr (VStr (path_str (path_of s)))).
  { destruct (truthy sp).
    - apply bind_ok_inv in Hc2 as (spath & w3 & Hspath & Hc2).
      apply lift_inv in Hspath as [Hspath ->].
      apply bind_ok_inv in Hc2 as (present & w3 & Hpres & Hc2).
      apply path_exists_inv in Hpres as [[= ->] ->].
      destruct (negb (_ || _)); [discriminate|].
      apply lift_inv in Hc2 as [Hc2 ->]. split; [reflexivity|]. split.
      + intros k K1 K2.
        rewrite (getitem2_setitem2_other _ _ _ _ _ k Hc2 K2).
        apply (getitem2_setitem2_other _ _ _ _ _ k Hc1 K1).
      + rewrite (getitem2_setitem2_other _ _ _ _ _ "psm_file" Hc2)
          by discriminate.
        apply (getitem2_setitem2_same _ _ _ _ _ Hc1).
    - apply ret_inv in Hc2 as [[= <-] ->]. split; [reflexivity|]. split.
      + intros k K1 _. apply (getitem2_setitem2_other _ _ _ _ _ k Hc1 K1).
      + apply (getitem2_setitem2_same _ _ _ _ _ Hc1). }
  destruct Hstep as (Hfs2 & Hframe & Hpsm2).
  apply bind_ok_inv in H as (op & w3 & Hop & H).
  apply lift_inv in Hop as [Hop ->].
  apply bind_ok_inv in H as (out & w3 & Hout & H).
  apply lift_inv in H as [H ->].
  exists s. split; [exact Hpsm|]. split; [exact Hmem|]. split.
  { rewrite (getitem2_setitem2_other _ _ _ _ _ "psm_file" H) by discriminate.
    exact Hpsm2. }
  exists op. split.
  { rewrite <- Hframe by discriminate. exact Hop. }
  destruct (truthy op) eqn:Top.
  - right.
    apply bind_ok_inv in Hout as (opath & w4 & Hopath & Hout).
    apply lift_inv in Hopath as [Hopath ->].
    destruct op as [| | |o| |]; try discriminate. injection Hopath as <-.
    exists o. split; [reflexivity|]. split.
    { intros ->. discriminate. }
    split.
    { apply (getitem2_setitem2_same _ _ _ _ _) in H.
      apply bind_ok_inv in Hout as (isd & w4 & Hisd & Hout).
      apply bind_ok_inv in Hout as (u & w5 & Hmk & Hout).
      apply ret_inv in Hout as [[= <-] ->]. exact H. }
    intros Hparts.
    apply bind_ok_inv in Hout as (isd & w4 & Hisd & Hout).
    apply is_dir_inv in Hisd as [[= ->] ->].
    apply bind_ok_inv in Hout as (u & w5 & Hmk & Hout).
    apply ret_inv in Hout as [_ ->].
    destruct (mem (path_str (path_of o)) (dirs (fs w2))) eqn:Hd;
      cbn [negb] in Hmk.
    + apply ret_inv in Hmk as [_ ->]. exact Hd.
    + destruct u. now apply mkdir_parents_creates in Hmk.
  - left. apply ret_inv in Hout as [[= <-] ->].
    split; [reflexivity|]. split; [exact Hfs2|].
    apply (getitem2_setitem2_same _ _ _ _ _ H).
Qed.

Lemma parse_configurations_keeps_paths pd h x w cfg w' :
  parse_configurations pd h x w = (inr cfg, w') ->
  exists c0 w0 c1,
    resolve_cascade pd h x w = (inr c0, w0) /\
    fs w0 = fs w /\
    _validate_filenames c0 w0 = (inr c1, w') /\
    forall k, k <> "processes" -> k <> "feature_generators" ->
              k <> "rescoring_engine" ->
              getitem2 cfg "ms2rescore" k = getitem2 c1 "ms2rescore" k.
Proof.
  intros H.
  apply parse_configurations_inv in H
    as (c0 & w0 & c1 & c2 & c3 & H0 & H1 & H2 & H3 & H4).
  exists c0, w0, c1. split; [exact H0|]. split.
  { now destruct (quiet_resolve_cascade pd h x w _ _ H0). }
  split; [exact H1|]. intros k K1 K2 K3.
  destruct (lowercase_section_spec _ _ _ _ _ H3) as (_ & _ & F3).
  destruct (lowercase_section_spec _ _ _ _ _ H4) as (_ & _ & F4).
  rewrite F4 by exact K3. rewrite F3 by exact K2.
  now apply (_validate_processes_frame _ _ _ _ _ k H2).
Qed.

(** X2: when [parse_configurations] returns, [psm_file] is the normalised
    spelling of the resolved [psm_file], and it names a file that
    exists. *)
Theorem returned_psm_file_exists pd h x w cfg0 w0 cfg w' :
  resolve_cascade pd h x w = (inr cfg0, w0) ->
  parse_configurations pd h x w = (inr cfg, w') ->
  exists s,
    getitem2 cfg0 "ms2rescore" "psm_file" = inr (VStr s) /\
    getitem2 cfg "ms2rescore" "psm_file" = inr (VStr (path_str (path_of s))) /\
    mem (path_str (path_of s)) (files (fs w')) = true.
Proof.
  intros Hres Hparse.
  pose proof (growing_parse_configurations _ _ _ _ _ _ Hparse)
    as [Hfiles _].
  apply parse_configurations_keeps_paths in Hparse
    as (c0 & w1 & c1 & H0 & Hfs & H1 & Hframe).
  rewrite Hres in H0. injection H0 as <- <-.
  apply _validate_filenames_inv in H1 as (s & Hs & Hmem & Hs' & _).
  exists s. split; [exact Hs|]. split.
  - rewrite Hframe by discriminate. exact Hs'.
  - rewrite Hfiles. now rewrite <- Hfs.
Qed.

Lemma returned_psm_file_exists_witness :
  exists s,
    resolved_value
      (resolve_cascade shape_package lab_host
         (psm_source "data//psms.tsv" 2) lab_world)
      "ms2rescore" "psm_file" = inr (VStr s) /\
    resolved_value
      (parse_configurations shape_package lab_host
         (psm_source "data//psms.tsv" 2) lab_world)
      "ms2rescore" "psm_file" = inr (VStr (path_str (path_of s))) /\
    mem (path_str (path_of s))
      (files (fs (snd (parse_configurations shape_package lab_host
                         (psm_source "data//psms.tsv" 2) lab_world))))
    = true.
Proof.
  exact (returned_psm_file_exists shape_package lab_host
           (psm_source "data//psms.tsv" 2) lab_world _ _ _ _
           eq_refl eq_refl).
Defined.

(** X3: when [parse_configurations] returns and the resolved
    [output_path] was null or empty, [output_path] is the parent
    directory of [psm_file] and the file system is as it was: nothing
    was created. *)
Theorem output_path_defaults_to_parent pd h x w cfg0 w0 cfg w' op :
  resolve_cascade pd h x w = (inr cfg0, w0) ->
  parse_configurations pd h x w = (inr cfg, w') ->
  getitem2 cfg0 "ms2rescore" "output_path" = inr op ->
  truthy op = false ->
  fs w' = fs w /\
  exists s,
    getitem2 cfg0 "ms2rescore" "psm_file" = inr (VStr s) /\
    getitem2 cfg "ms2rescore" "output_path"
    = inr (VStr (path_str (path_parent (path_of s)))).
Proof.
  intros Hres Hparse Hop Hfalse.
  apply parse_configurations_keeps_paths in Hparse
    as (c0 & w1 & c1 & H0 & Hfs & H1 & Hframe).
  rewrite Hres in H0. injection H0 as <- <-.
  apply _validate_filenames_inv in H1
    as (s & Hs & _ & _ & op' & Hop' & Hcases).
  rewrite Hop in Hop'. injection Hop' as <-.
  destruct Hcases as [(_ & Hsame & Hout) | (o & -> & Ho & _)].
  - split; [congruence|]. exists s. split; [exact Hs|].
    rewrite Hframe by discriminate. exact Hout.
  - apply String.eqb_neq in Ho. simpl in Hfalse. now rewrite Ho in Hfalse.
Qed.

Lemma output_path_defaults_to_parent_witness :
  fs (snd (parse_configurations shape_package lab_host
             (psm_source "data/psms.tsv" 2) lab_world))
  = fs lab_world /\
  exists s,
    resolved_value
      (resolve_cascade shape_package lab_host
         (psm_source "data/psms.tsv" 2) lab_world)
      "ms2rescore" "psm_file" = inr (VStr s) /\
    resolved_value
      (parse_configurations shape_package lab_host
         (psm_source "data/psms.tsv" 2) lab_world)
      "ms2rescore" "output_path"
    = inr (VStr (path_str (path_parent (path_of s)))).
Proof.
  exact (output_path_defaults_to_parent shape_package lab_host
           (psm_source "data/psms.tsv" 2) lab_world _ _ _ _ VNone
           eq_refl eq_refl eq_refl eq_refl).
Defined.

(** X4: when [parse_configurations] returns and the resolved
    [output_path] names a directory (other than the root or the current
    directory), [output_path] is its normalised spelling and that
    directory exists, whether it was there before or not. *)
Theorem output_path_is_a_directory pd h x w cfg0 w0 cfg w' o :
  resolve_cascade pd h x w = (inr cfg0, w0) ->
  parse_configurations pd h x w = (inr cfg, w') ->
  getitem2 cfg0 "ms2rescore" "output_path" = inr (VStr o) ->
  parts (path_of o) <> [] ->
  getitem2 cfg "ms2rescore" "output_path" = inr (VStr (path_str (path_of o))) /\
  mem (path_str (path_of o)) (dirs (fs w')) = true.
Proof.
  intros Hres Hparse Hop Hparts.
  apply parse_configurations_keeps_paths in Hparse
    as (c0 & w1 & c1 & H0 & Hfs & H1 & Hframe).
  rewrite Hres in H0. injection H0 as <- <-.
  apply _validate_filenames_inv in H1
    as (s & Hs & _ & _ & op' & Hop' & Hcases).
  rewrite Hop in Hop'. injection Hop' as <-.
  destruct Hcases as [(Hfalse & _) | (o' & [= <-] & _ & Hout & Hdir)].
  - simpl in Hfalse. apply negb_false_iff, String.eqb_eq in Hfalse. subst o.
    now contradiction Hparts.
  - split; [|now apply Hdir].
    rewrite Hframe by discriminate. exact Hout.
Qed.

Lemma output_path_is_a_directory_witness :
  resolved_value
    (parse_configurations shape_package lab_host
       (PList [psm_source "data/psms.tsv" 2;
               PNamespace [("output_path", VStr "out//run1")]]) lab_world)
    "ms2rescore" "output_path" = inr (VStr "out/run1") /\
  mem "out/run1"
    (dirs (fs (snd (parse_configurations shape_package lab_host
                      (PList [psm_source "data/psms.tsv" 2;
                              PNamespace [("output_path", VStr "out//run1")]])
                      lab_world))))
  = true.
Proof.
  apply (output_path_is_a_directory shape_package lab_host
           (PList [psm_source "data/psms.tsv" 2;
                   PNamespace [("output_path", VStr "out//run1")]])
           lab_world _ _ _ _ "out//run1" eq_refl eq_refl eq_refl).
  discriminate.
Defined.

(** X5: a resolved [psm_file] that is null or empty makes
    [parse_configurations] fail with the configuration error that asks
    for it, before any path is looked up on the file system. *)
Theorem psm_file_is_required pd h x w cfg w0 psm :
  resolve_cascade pd h x w = (inr cfg, w0) ->
  getitem2 cfg "ms2rescore" "psm_file" = inr psm ->
  truthy psm = false ->
  parse_configurations pd h x w
  = (inl (MS2RescoreConfigurationError psm_file_missing_msg), w0) /\
  untouched is_path_check w w0.
Proof.
  intros Hres Hpsm Hfalse. split.
  - unfold parse_configurations. erewrite bind_inr by exact Hres.
    apply bind_inl. unfold _validate_filenames.
    erewrite bind_inr by (unfold lift; rewrite Hpsm; reflexivity).
    now rewrite Hfalse.
  - eapply quiet_resolve_cascade. exact Hres.
Qed.

Lemma psm_file_is_required_witness :
  parse_configurations shape_package lab_host (PList []) lab_world
  = (inl (MS2RescoreConfigurationError psm_file_missing_msg), lab_world) /\
  untouched is_path_check lab_world lab_world.
Proof.
  exact (psm_file_is_required shape_package lab_host (PList []) lab_world
           _ _ VNone eq_refl eq_refl eq_refl).
Defined.



(** ** What the post-validation leaves alone *)

Lemma getitem_setitem2_other cfg s k x cfg' s' :
  setitem2 cfg s k x = inr cfg' -> s' <> s -> getitem cfg' s' = getitem cfg s'.
Proof.
  unfold setitem2, getitem. destruct cfg as [| | | | |d]; try discriminate.
  destruct (lookup s d) as [[| | | | |sec]|]; try discriminate.
  intros [= <-] Hne. now rewrite lookup_dict_set_other.
Qed.

Ltac frame_sections :=
  msteps; try congruence;
  repeat match goal with
         | H : inr _ = inr _ |- _ => injection H as H; subst
         | H : setitem2 _ _ _ _ = inr ?c |- context [getitem ?c _] =>
             rewrite (getitem_setitem2_other _ _ _ _ _ _ H) by assumption
         end; try reflexivity.

Lemma _validate_filenames_sections cfg w cfg' w' s :
  _validate_filenames cfg w = (inr cfg', w') -> s <> "ms2rescore" ->
  getitem cfg' s = getitem cfg s.
Proof. unfold _validate_filenames. intros H Hs. frame_sections. Qed.

Lemma _validate_processes_sections h cfg w cfg' w' s :
  _validate_processes h cfg w = (inr cfg', w') -> s <> "ms2rescore" ->
  getitem cfg' s = getitem cfg s.
Proof. unfold _validate_processes. intros H Hs. frame_sections. Qed.

Lemma lowercase_section_sections cfg k w cfg' w' s :
  lowercase_section cfg k w = (inr cfg', w') -> s <> "ms2rescore" ->
  getitem cfg' s = getitem cfg s.
Proof. unfold lowercase_section. intros H Hs. frame_sections. Qed.

(** X7: [parse_configurations] returns the resolved configuration with
    nothing changed but six keys of the pipeline section: every other key
    of that section, and every other section, is as the cascade resolved
    it. *)
Theorem post_validation_touches_six_keys pd h x w cfg0 w0 cfg w' :
  resolve_cascade pd h x w = (inr cfg0, w0) ->
  parse_configurations pd h x w = (inr cfg, w') ->
  (forall k, ~ In k post_validated ->
             getitem2 cfg "ms2rescore" k = getitem2 cfg0 "ms2rescore" k) /\
  (forall s, s <> "ms2rescore" -> getitem cfg s = getitem cfg0 s).
Proof.
  intros Hres Hparse.
  apply parse_configurations_inv in Hparse
    as (c0 & w1 & c1 & c2 & c3 & H0 & H1 & H2 & H3 & H4).
  rewrite Hres in H0. injection H0 as <- <-. split.
  - intros k Hk. unfold post_validated in Hk. simpl in Hk.
    destruct (lowercase_section_spec _ _ _ _ _ H3) as (_ & _ & F3).
    destruct (lowercase_section_spec _ _ _ _ _ H4) as (_ & _ & F4).
    rewrite F4 by (intros ->; tauto). rewrite F3 by (intros ->; tauto).
    rewrite (_validate_processes_frame _ _ _ _ _ k H2) by (intros ->; tauto).
    apply (_validate_filenames_frame _ _ _ _ k H1); intros ->; tauto.
  - intros s Hs.
    rewrite (lowercase_section_sections _ _ _ _ _ s H4 Hs).
    rewrite (lowercase_section_sections _ _ _ _ _ s H3 Hs).
    rewrite (_validate_processes_sections _ _ _ _ _ s H2 Hs).
    apply (_validate_filenames_sections _ _ _ _ s H1 Hs).
Qed.

Lemma post_validation_touches_six_keys_witness :
  resolved_value
    (parse_configurations shape_package lab_host
       (PDict [("ms2rescore", VDict [("psm_file", VStr "data/psms.tsv");
                                     ("pipeline", VStr "maxquant")])])
       lab_world)
    "ms2rescore" "pipeline"
  = resolved_value
      (resolve_cascade shape_package lab_host
         (PDict [("ms2rescore", VDict [("psm_file", VStr "data/psms.tsv");
                                       ("pipeline", VStr "maxquant")])])
         lab_world)
      "ms2rescore" "pipeline".
Proof.
  apply (proj1 (post_validation_touches_six_keys shape_package lab_host
                  (PDict [("ms2rescore",
                           VDict [("psm_file", VStr "data/psms.tsv");
                                  ("pipeline", VStr "maxquant")])])
                  lab_world _ _ _ _ eq_refl eq_refl) "pipeline").
  simpl. intuition discriminate.
Defined.

(** ** Running a step twice *)

Lemma dict_set_twice k v d : dict_set k v (dict_set k v d) = dict_set k v d.
Proof.
  induction d as [|[k0 v0] d IH]; simpl.
  - now rewrite String.eqb_refl.
  - destruct (String.eqb k0 k) eqn:E; simpl; rewrite E; [reflexivity|].
    now rewrite IH.
Qed.

Lemma setitem2_twice cfg s k x cfg' :
  setitem2 cfg s k x = inr cfg' -> setitem2 cfg' s k x = inr cfg'.
Proof.
  unfold setitem2. destruct cfg as [| | | | |d]; try discriminate.
  destruct (lookup s d) as [[| | | | |sec]|]; try discriminate.
  intros [= <-]. rewrite lookup_dict_set_same.
  now rewrite !dict_set_twice.
Qed.

(** X8: on an integer [processes], [_validate_processes] returns, does no
    I/O, and running it again on its result changes nothing. *)
Theorem validate_processes_is_idempotent h cfg w p :
  getitem2 cfg "ms2rescore" "processes" = inr (VInt p) ->
  exists cfg',
    _validate_processes h cfg w = (inr cfg', w) /\
    _validate_processes h cfg' w = (inr cfg', w).
Proof.
  intros Hp.
  destruct (getitem2_setitem2_defined cfg "ms2rescore" "processes" _
              "processes" (VInt (cpu_count h)) Hp) as [c1 Hc1].
  pose proof (getitem2_setitem2_same _ _ _ _ _ Hc1) as Hp1.
  pose proof (setitem2_twice _ _ _ _ _ Hc1) as Hc11.
  assert (Hagain : _validate_processes h c1 w = (inr c1, w)).
  { unfold _validate_processes, bind, lift, ret. rewrite Hp1.
    cbn [py_eq_int py_gt_int].
    destruct (cpu_count h =? -1); [now rewrite Hc11|].
    rewrite Z.gtb_ltb, Z.ltb_irrefl. reflexivity. }
  unfold _validate_processes at 1, bind, lift, ret. rewrite Hp.
  cbn [py_eq_int py_gt_int].
  destruct (p =? -1) eqn:E1.
  - exists c1. rewrite Hc1. auto.
  - destruct (p >? cpu_count h) eqn:E2.
    + exists c1. rewrite Hc1. auto.
    + exists cfg. split; [reflexivity|].
      unfold _validate_processes, bind, lift, ret. rewrite Hp.
      cbn [py_eq_int py_gt_int]. now rewrite E1, E2.
Qed.

Lemma validate_processes_is_idempotent_witness :
  exists cfg',
    _validate_processes lab_host
      (VDict [("ms2rescore", VDict [("processes", VInt 9)])]) lab_world
    = (inr cfg', lab_world) /\
    _validate_processes lab_host cfg' lab_world = (inr cfg', lab_world).
Proof.
  exact (validate_processes_is_idempotent lab_host
           (VDict [("ms2rescore", VDict [("processes", VInt 9)])])
           lab_world 9 eq_refl).
Defined.

Lemma keys_dict_set_in k v d :
  In k (keys d) -> keys (dict_set k v d) = keys d.
Proof.
  unfold keys. induction d as [|[k0 v0] d IH]; simpl; [tauto|].
  destruct (String.eqb k0 k) eqn:E; simpl; [reflexivity|].
  intros [->|Hin]; [now rewrite String.eqb_refl in E|].
  now rewrite IH.
Qed.

Lemma keys_dict_set_fresh k v d :
  ~ In k (keys d) -> keys (dict_set k v d) = (keys d ++ [k])%list.
Proof.
  intros H. rewrite lookup_None_dict_set by now apply lookup_None_keys.
  unfold keys. now rewrite map_app.
Qed.

Lemma NoDup_keys_dict_set k v d : NoDup (keys d) -> NoDup (keys (dict_set k v d)).
Proof.
  intros Hnd. destruct (in_dec string_dec k (keys d)) as [Hin|Hout].
  - now rewrite keys_dict_set_in.
  - rewrite keys_dict_set_fresh by exact Hout.
    apply NoDup_app; [exact Hnd|repeat constructor; intros []|].
    intros a Ha [<-|[]]. contradiction.
Qed.

Lemma lower_keys_fold_NoDup d :
  forall acc, NoDup (keys acc) ->
    NoDup (keys (fold_left
                   (fun acc kv => dict_set (lower (fst kv)) (snd kv) acc) d acc)).
Proof.
  induction d as [|[k v] d IH]; intros acc Hacc; simpl; [exact Hacc|].
  apply IH. now apply NoDup_keys_dict_set.
Qed.

(** Lowercasing a mapping whose keys are lowercase and distinct appends
    it as it is. *)
Lemma lower_keys_fold_fixed d :
  forall acc, NoDup (keys acc ++ keys d) -> Forall is_lower (keys d) ->
    fold_left (fun acc kv => dict_set (lower (fst kv)) (snd kv) acc) d acc
    = (acc ++ d)%list.
Proof.
  induction d as [|[k v] d IH]; intros acc Hnd Hlow; simpl.
  - now rewrite app_nil_r.
  - simpl in Hlow. inversion Hlow as [|? ? Hk Hrest]; subst.
    unfold is_lower in Hk. rewrite Hk.
    assert (Hfresh : lookup k acc = None).
    { apply lookup_None_keys. simpl in Hnd. apply NoDup_remove_2 in Hnd.
      intros Hin. apply Hnd. apply in_or_app. now left. }
    rewrite lookup_None_dict_set by exact Hfresh.
    rewrite IH.
    + now rewrite <- app_assoc.
    + unfold keys in *. rewrite map_app. simpl. now rewrite <- app_assoc.
    + exact Hrest.
Qed.

(** X9: lowercasing the keys of a section twice is lowercasing them once;
    the keys of the result are distinct. *)
Theorem lower_keys_idempotent d :
  lower_keys (lower_keys d) = lower_keys d /\ NoDup (keys (lower_keys d)).
Proof.
  assert (Hnd : NoDup (keys (lower_keys d))).
  { apply lower_keys_fold_NoDup. constructor. }
  split; [|exact Hnd].
  unfold lower_keys at 1.
  rewrite lower_keys_fold_fixed; [reflexivity|exact Hnd|].
  apply lower_keys_fold_keys. constructor.
Qed.

(** ** The events of the orchestrator *)

Lemma emits_ret {A} P (a : A) : emits P (ret a).
Proof.
  intros tr r tr' [= <- <-]. exists []. split; [now rewrite app_nil_r|constructor].
Qed.

Lemma emits_raise {A} P e : emits P (@raise (list event) A e).
Proof.
  intros tr r tr' [= <- <-]. exists []. split; [now rewrite app_nil_r|constructor].
Qed.

Lemma emits_lift {A} P (x : exn + A) : emits P (lift x).
Proof.
  intros tr r tr' [= <- <-]. exists []. split; [now rewrite app_nil_r|constructor].
Qed.

Lemma emits_record P e : P e = true -> emits P (record e).
Proof.
  intros He tr r tr' [= <- <-]. exists [e]. split; [reflexivity|now constructor].
Qed.

Lemma emits_bind {A B} P (m : Orch A) (f : A -> Orch B) :
  emits P m -> (forall a, emits P (f a)) -> emits P (bind m f).
Proof.
  intros Hm Hf tr r tr' H.
  apply bind_inv in H as [(e & H & _)|(a & tr1 & H1 & H2)].
  - eapply Hm; eauto.
  - destruct (Hm _ _ _ H1) as (e1 & -> & F1).
    destruct (Hf a _ _ _ H2) as (e2 & -> & F2).
    exists (e1 ++ e2)%list. split; [now rewrite app_assoc|].
    apply Forall_app; auto.
Qed.

(** The continuation of a looked-up value is only met with that value. *)
Lemma emits_bind_lift {A B} P (x : exn + A) (f : A -> Orch B) :
  (forall a, x = inr a -> emits P (f a)) -> emits P (bind (lift x) f).
Proof.
  intros Hf tr r tr' H. unfold bind, lift in H.
  destruct x as [e|a].
  - injection H as <- <-. exists []. split; [now rewrite app_nil_r|constructor].
  - eapply Hf; eauto.
Qed.

(** What follows a step that never returns is never run. *)
Lemma emits_bind_never {A B} P (m : Orch A) (f : A -> Orch B) :
  emits P m -> never_returns m -> emits P (bind m f).
Proof.
  intros Hm Hnever tr r tr' H.
  apply bind_inv in H as [(e & H & _)|(a & tr1 & H1 & _)].
  - eapply Hm; eauto.
  - now apply Hnever in H1.
Qed.

Lemma never_returns_raise {A} e : never_returns (@raise (list event) A e).
Proof. intros tr a tr' H. discriminate. Qed.

Lemma never_returns_bind_l {A B} (m : Orch A) (f : A -> Orch B) :
  never_returns m -> never_returns (bind m f).
Proof.
  intros Hm tr b tr' H. apply bind_ok_inv in H as (a & tr1 & H1 & _).
  now apply Hm in H1.
Qed.

Lemma never_returns_bind_r {A B} (m : Orch A) (f : A -> Orch B) :
  (forall a, never_returns (f a)) -> never_returns (bind m f).
Proof.
  intros Hf tr b tr' H. apply bind_ok_inv in H as (a & tr1 & _ & H2).
  now apply Hf in H2.
Qed.

Lemma emits_log P level msg : P (EvLog level msg) = true -> emits P (log level msg).
Proof. intros H. now apply emits_record. Qed.

(** Steps through a computation of the orchestrator, for a property [P]
    that the events met on the way satisfy by computation. *)
Ltac emits_step :=
  first
    [ apply emits_ret | apply emits_raise | apply emits_lift
    | apply emits_log; reflexivity
    | apply emits_record; reflexivity
    | match goal with
      | |- emits _ (if ?b then _ else _) => destruct b
      | |- emits _ (match ?x with _ => _ end) => destruct x
      | |- emits _ (let '(_, _) := ?x in _) => destruct x
      end
    | apply emits_bind; [|intros ?] ].

Lemma remove_files_cons t f rest tr :
  remove_files t (f :: rest) tr
  = match os_remove t f with
    | inr _ => remove_files t rest (tr ++ [EvRemove f])%list
    | inl (FileNotFoundError path) =>
        remove_files t rest
          (tr ++ [EvRemove f;
                  EvLog "debug"
                    ("[Errno 2] No such file or directory: '" ++ path ++ "'")])%list
    | inl e => (inl e, (tr ++ [EvRemove f])%list)
    end.
Proof.
  cbn [remove_files]. unfold bind, record, log, record, ret, raise.
  destruct (os_remove t f) as [e|u]; [destruct e|];
    rewrite <- ?app_assoc; reflexivity.
Qed.

(** X10: cleaning up passes over a file that is not there and over
    nothing else.  When [os.remove] raises nothing but
    [FileNotFoundError], [remove_files] tries every file of its list, in
    order, and returns; the first file for which it raises another error
    ends the clean-up with that error, and the files after it are not
    tried. *)
Theorem remove_files_passes_over_missing_files t to_remove tr :
  (Forall (fun f => harmless (os_remove t f) = true) to_remove ->
   exists evs,
     remove_files t to_remove tr = (inr tt, (tr ++ evs)%list) /\
     removed evs = to_remove) /\
  (forall before f e after,
      to_remove = (before ++ f :: after)%list ->
      Forall (fun f => harmless (os_remove t f) = true) before ->
      os_remove t f = inl e -> is_not_found_error e = false ->
      exists evs,
        remove_files t to_remove tr = (inl e, (tr ++ evs)%list) /\
        removed evs = (before ++ [f])%list).
Proof.
  split.
  - intros Hall. revert tr.
    induction Hall as [|f l Hf Hall IH]; intros tr.
    + exists []. simpl. now rewrite app_nil_r.
    + rewrite remove_files_cons.
      destruct (os_remove t f) as [e|u]; [destruct e; try discriminate|].
      * match goal with
        | |- context [remove_files t l ?tr1] =>
            destruct (IH tr1) as (evs & Hrun & Hrem)
        end.
        rewrite Hrun. eexists (EvRemove f :: _ :: evs). split.
        -- rewrite <- !app_assoc. reflexivity.
        -- simpl. now rewrite Hrem.
      * destruct (IH (tr ++ [EvRemove f])%list) as (evs & Hrun & Hrem).
        rewrite Hrun. exists (EvRemove f :: evs). split.
        -- now rewrite <- app_assoc.
        -- simpl. now rewrite Hrem.
  - intros before f e after -> Hall Hrm He. revert tr.
    induction Hall as [|g l Hg Hall IH]; intros tr.
    + cbn [app]. rewrite remove_files_cons, Hrm.
      exists [EvRemove f]. split; [|reflexivity].
      destruct e; try reflexivity. discriminate.
    + cbn [app]. rewrite remove_files_cons.
      destruct (os_remove t g) as [e'|u]; [destruct e'; try discriminate|].
      * match goal with
        | |- context [remove_files t _ ?tr1] =>
            destruct (IH tr1) as (evs & Hrun & Hrem)
        end.
        rewrite Hrun. eexists (EvRemove g :: _ :: evs). split.
        -- rewrite <- !app_assoc. reflexivity.
        -- simpl. now rewrite Hrem.
      * destruct (IH (tr ++ [EvRemove g])%list) as (evs & Hrun & Hrem).
        rewrite Hrun. exists (EvRemove g :: evs). split.
        -- now rewrite <- app_assoc.
        -- simpl. now rewrite Hrem.
Qed.

Lemma remove_files_passes_over_missing_files_witness :
  (exists evs,
      remove_files cluttered_tools ["out_ms2pip_config.txt"; "out.peprec"] []
      = (inr tt, ([] ++ evs)%list) /\
      removed evs = ["out_ms2pip_config.txt"; "out.peprec"]) /\
  (exists evs,
      remove_files cluttered_tools
        ["out_ms2pip_config.txt"; "out.mgf"; "out.peprec"] []
      = (inl (IsADirectoryError "out.mgf"), ([] ++ evs)%list) /\
      removed evs = ["out_ms2pip_config.txt"; "out.mgf"]).
Proof.
  split.
  - apply (proj1 (remove_files_passes_over_missing_files cluttered_tools
                    ["out_ms2pip_config.txt"; "out.peprec"] [])).
    repeat constructor.
  - apply (proj2 (remove_files_passes_over_missing_files cluttered_tools
                    ["out_ms2pip_config.txt"; "out.mgf"; "out.peprec"] [])
             ["out_ms2pip_config.txt"] "out.mgf"
             (IsADirectoryError "out.mgf") ["out.peprec"]).
    + reflexivity.
    + repeat constructor.
    + reflexivity.
    + reflexivity.
Defined.

Lemma run_percolator_cons t config outname d options sub rest tr :
  getitem config "percolator" = inr (VDict d) ->
  percolator_options t (VDict d) = inr options ->
  run_percolator t config outname (VStr sub :: rest) tr
  = let cmd := percolator_command options outname sub in
    let pout := (outname ++ "_" ++ sub ++ "features") ++ ".pout" in
    match subprocess_raises t cmd with
    | Some e =>
        (inl e,
         (tr ++ [EvLog "info" ("Running Percolator: " ++ cmd); EvRun cmd])%list)
    | None =>
        run_percolator t config outname rest
          (tr ++ EvLog "info" ("Running Percolator: " ++ cmd) :: EvRun cmd
              :: EvIsFile pout
              :: (if os_isfile t pout then []
                  else [EvLog "error" "Error running Percolator"]))%list
    end.
Proof.
  intros Hperc Hopt. cbn [run_percolator].
  erewrite bind_inr by reflexivity.
  erewrite bind_inr by (unfold lift; rewrite Hperc; reflexivity).
  erewrite bind_inr by (unfold lift; rewrite Hopt; reflexivity).
  erewrite bind_inr by reflexivity.
  erewrite bind_inr by reflexivity.
  cbv zeta. unfold percolator_command.
  destruct (subprocess_raises t _) as [e|].
  - unfold bind, raise. rewrite <- !app_assoc. reflexivity.
  - erewrite bind_inr by reflexivity.
    erewrite bind_inr by reflexivity.
    destruct (os_isfile t _).
    + erewrite bind_inr by reflexivity.
      rewrite <- !app_assoc. reflexivity.
    + erewrite bind_inr by reflexivity.
      rewrite <- !app_assoc. reflexivity.
Qed.

(** The events of one round of the loop keep one command. *)
Ltac percolator_round IH :=
  match goal with
  | |- context [run_percolator _ _ _ _ (?tr ++ ?p)%list] =>
      let round := fresh "round" in
      let evs := fresh "evs" in
      let Hrun := fresh "Hrun" in
      let Hran := fresh "Hran" in
      set (round := p);
      destruct (IH (tr ++ round)%list) as (evs & Hrun & Hran);
      rewrite Hrun; exists (round ++ evs)%list;
      split; [now rewrite app_assoc|];
      unfold ran in *; rewrite flat_map_app, Hran; unfold round;
      now destruct (os_isfile _ _)
  end.

(** X11: a subset for which Percolator leaves no output does not stop the
    loop, and a command that cannot be started does.  With a
    [percolator] section that is a mapping, and as long as
    [subprocess.run] raises for none of the commands, [run_percolator]
    runs the command of every subset, in order, and returns, whatever
    [os.path.isfile] answers; the first command for which it raises ends
    the loop with that error. *)
Theorem run_percolator_runs_every_subset t config outname d options names tr :
  getitem config "percolator" = inr (VDict d) ->
  percolator_options t (VDict d) = inr options ->
  (Forall (fun sub =>
             subprocess_raises t (percolator_command options outname sub)
             = None) names ->
   exists evs,
     run_percolator t config outname (map VStr names) tr
     = (inr tt, (tr ++ evs)%list) /\
     ran evs = map (percolator_command options outname) names) /\
  (forall before sub e after,
      names = (before ++ sub :: after)%list ->
      Forall (fun sub =>
                subprocess_raises t (percolator_command options outname sub)
                = None) before ->
      subprocess_raises t (percolator_command options outname sub) = Some e ->
      exists evs,
        run_percolator t config outname (map VStr names) tr
        = (inl e, (tr ++ evs)%list) /\
        ran evs = map (percolator_command options outname)
                    (before ++ [sub])%list).
Proof.
  intros Hperc Hopt. split.
  - intros Hall. revert tr. induction Hall as [|sub names Hsub Hall IH]; intros tr.
    + exists []. simpl. now rewrite app_nil_r.
    + cbn [map]. rewrite (run_percolator_cons _ _ _ _ _ _ _ _ Hperc Hopt).
      cbv zeta. rewrite Hsub. percolator_round IH.
  - intros before sub e after -> Hall He. revert tr.
    induction Hall as [|s l Hs Hall IH]; intros tr.
    + cbn [app map]. rewrite (run_percolator_cons _ _ _ _ _ _ _ _ Hperc Hopt).
      cbv zeta. rewrite He. eexists. split; reflexivity.
    + cbn [app map]. rewrite (run_percolator_cons _ _ _ _ _ _ _ _ Hperc Hopt).
      cbv zeta. rewrite Hs. percolator_round IH.
Qed.

Lemma run_percolator_runs_every_subset_witness :
  (exists evs,
      run_percolator failing_tools (maxquant_config true) "out"
        (map VStr ["all"; "ms2pip"]) []
      = (inr tt, ([] ++ evs)%list) /\
      ran evs
      = map (percolator_command "percolator --trainFDR 0.01 " "out")
          ["all"; "ms2pip"]) /\
  (exists evs,
      run_percolator failing_tools (maxquant_config true) "out"
        (map VStr ["all"; nul_name; "ms2pip"]) []
      = (inl (ValueError "embedded null byte"), ([] ++ evs)%list) /\
      ran evs
      = map (percolator_command "percolator --trainFDR 0.01 " "out")
          ["all"; nul_name]).
Proof.
  split.
  - apply (proj1 (run_percolator_runs_every_subset failing_tools
                    (maxquant_config true) "out" [("trainFDR", VStr "0.01")]
                    "percolator --trainFDR 0.01 " ["all"; "ms2pip"] []
                    eq_refl eq_refl)).
    repeat constructor.
  - apply (proj2 (run_percolator_runs_every_subset failing_tools
                    (maxquant_config true) "out" [("trainFDR", VStr "0.01")]
                    "percolator --trainFDR 0.01 " ["all"; nul_name; "ms2pip"] []
                    eq_refl eq_refl)
             ["all"] nul_name (ValueError "embedded null byte") ["ms2pip"]).
    + reflexivity.
    + repeat constructor.
    + reflexivity.
Defined.

(** ** Pre-flight and pipeline selection *)

(** X12: with rescoring switched on and Percolator not callable, [main]
    leaves through [exit(1)] right after the first probe: MS2PIP is not
    even probed. *)
Theorem percolator_is_checked_first t config rp tr :
  getitem2 config "general" "run_percolator" = inr rp ->
  truthy rp = true ->
  getstatusoutput t "percolator -h" <> 0 ->
  main t config tr
  = (inl (SystemExit 1),
     (tr ++ [EvStatus "percolator -h";
             EvLog "critical" percolator_missing_msg])%list) /\
  exit_status (fst (main t config tr)) = 1.
Proof.
  intros Hrp Htrue Hperc. apply Z.eqb_neq in Hperc.
  assert (Hmain : main t config tr
                  = (inl (SystemExit 1),
                     (tr ++ [EvStatus "percolator -h";
                             EvLog "critical" percolator_missing_msg])%list)).
  { unfold main. apply bind_inl. unfold preflight.
    erewrite bind_inr by (unfold lift; rewrite Hrp; reflexivity).
    apply bind_inl. rewrite Htrue.
    erewrite bind_inr by reflexivity. rewrite Hperc. cbn [negb].
    erewrite bind_inr by reflexivity.
    unfold exit, raise. now rewrite <- app_assoc. }
  now rewrite Hmain.
Qed.

Lemma percolator_is_checked_first_witness :
  main bare_tools (maxquant_config true) []
  = (inl (SystemExit 1),
     [EvStatus "percolator -h"; EvLog "critical" percolator_missing_msg]) /\
  exit_status (fst (main bare_tools (maxquant_config true) [])) = 1.
Proof.
  apply (percolator_is_checked_first bare_tools (maxquant_config true)
           (VBool true) [] eq_refl eq_refl).
  discriminate.
Defined.

Lemma preflight_passes t config rp tr :
  getitem2 config "general" "run_percolator" = inr rp ->
  truthy rp = false \/ getstatusoutput t "percolator -h" = 0 ->
  getstatusoutput t "ms2pip -h" = 0 ->
  exists evs,
    preflight t config tr = (inr tt, (tr ++ evs)%list) /\
    Forall (fun e => is_stage_event e = false) evs.
Proof.
  intros Hrp Hperc Hms2pip. unfold preflight.
  erewrite bind_inr by (unfold lift; rewrite Hrp; reflexivity).
  destruct (truthy rp) eqn:E.
  - destruct Hperc as [Hperc|Hperc]; [discriminate|].
    exists [EvStatus "percolator -h"; EvStatus "ms2pip -h"]. split.
    + erewrite bind_inr
        by (erewrite bind_inr by reflexivity; rewrite Hperc; reflexivity).
      erewrite bind_inr by reflexivity. rewrite Hms2pip.
      unfold ret. cbn [negb Z.eqb]. now rewrite <- app_assoc.
    + repeat constructor.
  - exists [EvStatus "ms2pip -h"]. split.
    + erewrite bind_inr by reflexivity.
      erewrite bind_inr by reflexivity. now rewrite Hms2pip.
    + repeat constructor.
Qed.

(** X13: a pipeline name that is none of the seven known spellings, in any
    letter case, makes [main] log a critical message and leave through
    [exit(1)] once the pre-flight checks have passed; no adapter and no
    later stage is run. *)
Theorem unknown_pipeline_exits_one t config rp pl tr :
  getitem2 config "general" "run_percolator" = inr rp ->
  truthy rp = false \/ getstatusoutput t "percolator -h" = 0 ->
  getstatusoutput t "ms2pip -h" = 0 ->
  getitem2 config "general" "pipeline" = inr (VStr pl) ->
  mem (lower pl)
    ["maxquant"; "msgfplus"; "msgf+"; "ms-gf+"; "tandem"; "xtandem"; "x!tandem"]
  = false ->
  exists evs,
    main t config tr = (inl (SystemExit 1), (tr ++ evs)%list) /\
    Forall (fun e => is_stage_event e = false) evs.
Proof.
  intros Hrp Hperc Hms2pip Hpl Hkind.
  destruct (preflight_passes t config rp tr Hrp Hperc Hms2pip)
    as (evs & Hpre & Hevs).
  exists (evs ++ [EvLog "critical" "Could not recognize the requested pipeline."])%list.
  split.
  - unfold main. erewrite bind_inr by exact Hpre.
    unfold stages. apply bind_inl. unfold select_pipeline.
    erewrite bind_inr by (unfold lift; rewrite Hpl; reflexivity).
    erewrite bind_inr by reflexivity.
    cbn [mem existsb] in Hkind.
    apply orb_false_iff in Hkind as [K1 Hkind].
    unfold mem. cbn [existsb].
    repeat (apply orb_false_iff in Hkind as [? Hkind]).
    repeat match goal with
           | H : (lower pl =? _)%string = false |- _ => rewrite H; clear H
           end.
    cbn [orb]. erewrite bind_inr by reflexivity.
    unfold exit, raise. now rewrite <- app_assoc.
  - apply Forall_app. split; [exact Hevs|repeat constructor].
Qed.

Lemma unknown_pipeline_exits_one_witness :
  exists evs,
    main full_tools
      (VDict [("general", VDict [("run_percolator", VBool false);
                                 ("pipeline", VStr "Comet")])]) []
    = (inl (SystemExit 1), ([] ++ evs)%list) /\
    Forall (fun e => is_stage_event e = false) evs.
Proof.
  exact (unknown_pipeline_exits_one full_tools
           (VDict [("general", VDict [("run_percolator", VBool false);
                                      ("pipeline", VStr "Comet")])])
           (VBool false) "Comet" [] eq_refl (or_introl eq_refl) eq_refl
           eq_refl eq_refl).
Defined.

(** X14: the pipeline is chosen by its name in lowercase: any spelling of
    [maxquant] runs the MaxQuant adapter, any spelling of [msgfplus],
    [msgf+] or [ms-gf+] the MSGF+ adapter, and any spelling of [tandem],
    [xtandem] or [x!tandem] the X!Tandem adapter; the adapter's outcome
    is the outcome of the selection. *)
Theorem select_pipeline_by_lowercase_name t config pl tr :
  getitem2 config "general" "pipeline" = inr (VStr pl) ->
  (lower pl = "maxquant" ->
   select_pipeline t config tr
   = (maxquant_pipeline t config,
      (tr ++ [EvLog "info" ("Using " ++ pl ++ " pipeline");
              EvAdapter "maxquant"])%list)) /\
  (mem (lower pl) ["msgfplus"; "msgf+"; "ms-gf+"] = true ->
   select_pipeline t config tr
   = (msgf_pipeline t config, (tr ++ [EvAdapter "msgf"])%list)) /\
  (mem (lower pl) ["tandem"; "xtandem"; "x!tandem"] = true ->
   select_pipeline t config tr
   = (tandem_pipeline t config, (tr ++ [EvAdapter "tandem"])%list)).
Proof.
  intros Hpl.
  assert (Hsel : forall k, lower pl = k ->
             select_pipeline t config tr
             = (if (k =? "maxquant")%string
                then
                  (name <- lift (as_str (VStr pl)) ;;
                   log "info" ("Using " ++ name ++ " pipeline") ;;;
                   record (EvAdapter "maxquant") ;;;
                   lift (maxquant_pipeline t config))
                else if mem k ["msgfplus"; "msgf+"; "ms-gf+"]
                then record (EvAdapter "msgf") ;;; lift (msgf_pipeline t config)
                else if mem k ["tandem"; "xtandem"; "x!tandem"]
                then record (EvAdapter "tandem") ;;;
                     lift (tandem_pipeline t config)
                else log "critical" "Could not recognize the requested pipeline." ;;;
                     exit 1) tr).
  { intros k <-. unfold select_pipeline.
    erewrite bind_inr by (unfold lift; rewrite Hpl; reflexivity).
    erewrite bind_inr by reflexivity. reflexivity. }
  split; [|split].
  - intros Hk. rewrite (Hsel _ Hk). cbn [String.eqb Ascii.eqb Bool.eqb].
    unfold bind, lift, log, record. cbn [as_str].
    now rewrite <- app_assoc.
  - intros Hk. rewrite (Hsel _ eq_refl). rewrite Hk.
    replace (lower pl =? "maxquant")%string with false; [reflexivity|].
    symmetry. apply String.eqb_neq. intros E. rewrite E in Hk. discriminate.
  - intros Hk. rewrite (Hsel _ eq_refl). rewrite Hk.
    replace (lower pl =? "maxquant")%string with false.
    + replace (mem (lower pl) ["msgfplus"; "msgf+"; "ms-gf+"]) with false;
        [reflexivity|].
      symmetry. apply mem_In in Hk. apply not_true_is_false. intros Hm.
      apply mem_In in Hm. simpl in Hk, Hm.
      intuition congruence.
    + symmetry. apply String.eqb_neq. intros E. rewrite E in Hk. discriminate.
Qed.

Lemma select_pipeline_by_lowercase_name_witness :
  select_pipeline full_tools
    (VDict [("general", VDict [("pipeline", VStr "MSGF+")])]) []
  = (inr ("out.peprec", "out.mgf"), [EvAdapter "msgf"]).
Proof.
  apply (proj1 (proj2 (select_pipeline_by_lowercase_name full_tools
                         (VDict [("general", VDict [("pipeline", VStr "MSGF+")])])
                         "MSGF+" [] eq_refl))).
  reflexivity.
Defined.

(** ** What the stages never do *)

Lemma emits_remove_files P t l :
  (forall f, P (EvRemove f) = true) ->
  (forall level msg, P (EvLog level msg) = true) ->
  emits P (remove_files t l).
Proof.
  intros Hrm Hlog. induction l as [|f l IH]; simpl.
  - apply emits_ret.
  - apply emits_bind; [apply emits_record, Hrm|]. intros _.
    apply emits_bind; [|intros _; exact IH].
    destruct (os_remove t f) as [e|u]; [|apply emits_ret].
    destruct e; first [apply emits_log, Hlog | apply emits_raise].
Qed.

Lemma emits_run_percolator P t config outname subsets :
  (forall level msg, P (EvLog level msg) = true) ->
  (forall cmd, P (EvRun cmd) = true) ->
  (forall f, P (EvIsFile f) = true) ->
  emits P (run_percolator t config outname subsets).
Proof.
  intros Hlog Hrun Hisfile. induction subsets as [|s l IH]; simpl.
  - apply emits_ret.
  - apply emits_bind; [apply emits_lift|]. intros sub.
    apply emits_bind; [apply emits_lift|]. intros perc.
    apply emits_bind; [apply emits_lift|]. intros cmd.
    apply emits_bind; [apply emits_log, Hlog|]. intros _.
    apply emits_bind; [apply emits_record, Hrun|]. intros _.
    apply emits_bind.
    { destruct (subprocess_raises t _); [apply emits_raise|apply emits_ret]. }
    intros _.
    apply emits_bind; [apply emits_record, Hisfile|]. intros _.
    apply emits_bind; [|intros _; exact IH].
    destruct (negb _); [apply emits_log, Hlog|apply emits_ret].
Qed.

(** X15: with rescoring switched off, [main] neither probes nor runs
    Percolator, however the run goes. *)
Theorem percolator_is_never_called_when_off t config rp :
  getitem2 config "general" "run_percolator" = inr rp ->
  truthy rp = false ->
  emits (fun e => negb (calls_percolator e)) (main t config).
Proof.
  intros Hrp Hfalse. unfold main, preflight, stages, select_pipeline.
  repeat first
    [ match goal with
      | |- emits _ (bind (lift (getitem2 config "general" "run_percolator")) _) =>
          apply emits_bind_lift;
          let a := fresh "a" in
          let Ha := fresh "Ha" in
          intros a Ha; rewrite Hrp in Ha; injection Ha as <-; rewrite Hfalse
      | |- emits _ (remove_files _ _) =>
          apply emits_remove_files; intros; reflexivity
      end
    | emits_step ].
Qed.

Lemma percolator_is_never_called_when_off_witness :
  exists evs,
    snd (main full_tools (maxquant_config false) []) = ([] ++ evs)%list /\
    Forall (fun e => negb (calls_percolator e) = true) evs.
Proof.
  exact (percolator_is_never_called_when_off full_tools (maxquant_config false)
           (VBool false) eq_refl eq_refl [] _ _ eq_refl).
Defined.

(** X16: when the prediction run fails, [main] never returns normally and
    nothing that follows the run happens: no feature computation, no PIN
    files, no clean-up and no rescoring. *)
Theorem failed_prediction_stops_the_run t config :
  (forall cmd, subprocess_run t cmd <> 0) ->
  never_returns (main t config) /\
  emits (fun e => negb (after_prediction e)) (main t config).
Proof.
  intros Hfail.
  assert (Hc : forall cmd, negb (subprocess_run t cmd =? 0) = true).
  { intros cmd. apply negb_true_iff, Z.eqb_neq, Hfail. }
  split.
  - unfold main, stages.
    repeat first
      [ match goal with
        | |- never_returns (bind (match subprocess_raises ?t ?c with
                                  | _ => _
                                  end) _) =>
            apply never_returns_bind_l;
            destruct (subprocess_raises t c); [|rewrite Hc];
            apply never_returns_raise
        | |- never_returns (let '(_, _) := ?x in _) => destruct x
        end
      | apply never_returns_bind_r; intros ? ].
  - unfold main, preflight, stages, select_pipeline.
    repeat first
      [ match goal with
        | |- emits _ (bind (match subprocess_raises ?t ?c with
                            | _ => _
                            end) _) =>
            apply emits_bind_never;
            (destruct (subprocess_raises t c); [|rewrite Hc]);
            first [apply emits_raise | apply never_returns_raise]
        end
      | emits_step ].
Qed.

Lemma failed_prediction_stops_the_run_witness :
  exists evs,
    snd (main failing_tools (maxquant_config true) []) = ([] ++ evs)%list /\
    Forall (fun e => negb (after_prediction e) = true) evs.
Proof.
  assert (Hfail : forall cmd, subprocess_run failing_tools cmd <> 0).
  { intros cmd. discriminate. }
  exact (proj2 (failed_prediction_stops_the_run failing_tools
                  (maxquant_config true) Hfail) [] _ _ eq_refl).
Defined.

(** X17: with [keep_tmp_files] switched on, [main] removes no file,
    however the run goes. *)
Theorem kept_files_are_never_removed t config keep :
  getitem2 config "general" "keep_tmp_files" = inr keep ->
  truthy keep = true ->
  emits (fun e => match e with EvRemove _ => false | _ => true end)
    (main t config).
Proof.
  intros Hkeep Htrue. unfold main, preflight, stages, select_pipeline.
  repeat first
    [ match goal with
      | |- emits _ (bind (lift (getitem2 config "general" "keep_tmp_files")) _) =>
          apply emits_bind_lift;
          let a := fresh "a" in
          let Ha := fresh "Ha" in
          intros a Ha; rewrite Hkeep in Ha; injection Ha as <-; rewrite Htrue;
          cbn [negb]
      | |- emits _ (run_percolator _ _ _ _) =>
          apply emits_run_percolator; intros; reflexivity
      end
    | emits_step ].
Qed.

Lemma kept_files_are_never_removed_witness :
  exists evs,
    snd (main full_tools (maxquant_config true) []) = ([] ++ evs)%list /\
    Forall (fun e => match e with EvRemove _ => false | _ => true end = true)
      evs.
Proof.
  exact (kept_files_are_never_removed full_tools (maxquant_config true)
           (VBool true) eq_refl eq_refl [] _ _ eq_refl).
Defined.

(** ** The command line *)

Lemma on_disk_run {A} (m : M A) s r w' :
  m (disk s) = (r, w') ->
  on_disk m s = (r, {| disk := w'; happened := happened s |}).
Proof. unfold on_disk. now intros ->. Qed.

Lemma on_disk_inv {A} (m : M A) s r s' :
  on_disk m s = (r, s') ->
  m (disk s) = (r, disk s') /\ happened s' = happened s.
Proof.
  unfold on_disk. destruct (m (disk s)) as [r0 w0]. now intros [= <- <-].
Qed.

Lemma append_not_empty a b : b <> "" -> (a ++ b =? "")%string = false.
Proof.
  intros Hb. apply String.eqb_neq. destruct a; simpl; [exact Hb|discriminate].
Qed.

Lemma set_general_if_same config k v config' :
  set_general_if config k v = inr config' -> v <> "" ->
  getitem2 config' "general" k = inr (VStr v).
Proof.
  unfold set_general_if. intros H Hv. apply String.eqb_neq in Hv.
  rewrite Hv in H. cbn [negb] in H. now apply getitem2_setitem2_same in H.
Qed.

Lemma set_general_if_other config k v config' k' :
  set_general_if config k v = inr config' -> k' <> k ->
  getitem2 config' "general" k' = getitem2 config "general" k'.
Proof.
  unfold set_general_if. intros H Hk.
  destruct (negb _); [|now injection H as <-].
  now apply (getitem2_setitem2_other _ _ _ _ _ k' H).
Qed.

Lemma set_general_if_sections config k v config' s :
  set_general_if config k v = inr config' -> s <> "general" ->
  getitem config' s = getitem config s.
Proof.
  unfold set_general_if. intros H Hs.
  destruct (negb _); [|now injection H as <-].
  now apply (getitem_setitem2_other _ _ _ _ _ s H).
Qed.

(** What a returning [parse_config] has read and written. *)
Lemma parse_config_inv c args s config s' :
  parse_config c args s = (inr config, s') ->
  exists raw c1 c2 c3 out,
    read_config c (config_file args) = inr raw /\
    setitem2 raw "general" "identification_file"
      (VStr (identification_file args)) = inr c1 /\
    set_general_if c1 "mgf_file"
      (chosen (mgf_file args)
         (fst (splitext (identification_file args)) ++ ".mgf")) = inr c2 /\
    set_general_if c2 "log_level" (log_level args) = inr c3 /\
    out = chosen (output_filename args)
            (fst (splitext (identification_file args))) /\
    set_general_if c3 "output_filename" out = inr config.
Proof.
  unfold parse_config. intros H.
  apply bind_ok_inv in H as (u & s1 & _ & H).
  apply bind_ok_inv in H as (found & s2 & _ & H).
  destruct (negb found); [discriminate|].
  apply bind_ok_inv in H as (mgf & s3 & Hmgf & H).
  apply bind_ok_inv in H as (out & s4 & Hout & H).
  apply bind_ok_inv in H as (raw & s5 & Hraw & H).
  apply bind_ok_inv in H as (c1 & s6 & Hc1 & H).
  apply bind_ok_inv in H as (c2 & s7 & Hc2 & H).
  apply bind_ok_inv in H as (c3 & s8 & Hc3 & H).
  apply bind_ok_inv in H as (c4 & s9 & Hc4 & H).
  injection H as <- <-.
  injection Hc1 as Hc1 _. injection Hc2 as Hc2 _.
  injection Hc3 as Hc3 _. injection Hc4 as Hc4 _.
  assert (Emgf : mgf = chosen (mgf_file args)
                         (fst (splitext (identification_file args)) ++ ".mgf")).
  { unfold chosen. destruct (mgf_file args) as [m|].
    - destruct (given (Some m)).
      + apply bind_ok_inv in Hmgf as (f & s' & _ & Hmgf).
        destruct (negb f); [discriminate|]. now injection Hmgf as <- _.
      + now injection Hmgf as <- _.
    - now injection Hmgf as <- _. }
  assert (Eout : out = chosen (output_filename args)
                         (fst (splitext (identification_file args)))).
  { unfold chosen. destruct (output_filename args) as [o|].
    - destruct (given (Some o)).
      + apply bind_ok_inv in Hout as (isd & s' & _ & Hout).
        apply bind_ok_inv in Hout as (u' & s'' & _ & Hout).
        now injection Hout as <- _.
      + now injection Hout as <- _.
    - now injection Hout as <- _. }
  assert (Eraw : read_config c (config_file args) = inr raw).
  { apply bind_ok_inv in Hraw as (u' & s' & _ & Hraw).
    destruct (read_config c (config_file args)) as [[]|r];
      try discriminate.
    now injection Hraw as <- _. }
  subst mgf. exists raw, c1, c2, c3, out. auto 10.
Qed.

(** X18: when [parse_config] returns, the values of the command line are
    in the [general] section: the identification file, the spectrum file
    (given, or derived from the identification file by its extension),
    the log level and the output name, when they are not empty.  Every
    other key of [general] and every other section is as the
    configuration file has it. *)
Theorem command_line_overrides_file c args s config s' :
  parse_config c args s = (inr config, s') ->
  exists raw,
    read_config c (config_file args) = inr raw /\
    getitem2 config "general" "identification_file"
    = inr (VStr (identification_file args)) /\
    getitem2 config "general" "mgf_file"
    = inr (VStr (chosen (mgf_file args)
                   (fst (splitext (identification_file args)) ++ ".mgf"))) /\
    (log_level args <> "" ->
     getitem2 config "general" "log_level" = inr (VStr (log_level args))) /\
    (chosen (output_filename args) (fst (splitext (identification_file args)))
     <> "" ->
     getitem2 config "general" "output_filename"
     = inr (VStr (chosen (output_filename args)
                    (fst (splitext (identification_file args)))))) /\
    (forall k, ~ In k cli_keys ->
               getitem2 config "general" k = getitem2 raw "general" k) /\
    (forall sec, sec <> "general" -> getitem config sec = getitem raw sec).
Proof.
  intros H.
  apply parse_config_inv in H
    as (raw & c1 & c2 & c3 & out & Hraw & H1 & H2 & H3 & -> & H4).
  exists raw. split; [exact Hraw|].
  assert (Hmgf : chosen (mgf_file args)
                   (fst (splitext (identification_file args)) ++ ".mgf") <> "").
  { unfold chosen. destruct (mgf_file args) as [m|].
    - destruct (given (Some m)) eqn:G.
      + simpl in G. apply negb_true_iff, String.eqb_neq in G. exact G.
      + apply String.eqb_neq, append_not_empty. discriminate.
    - apply String.eqb_neq, append_not_empty. discriminate. }
  repeat split.
  - rewrite (set_general_if_other _ _ _ _ "identification_file" H4)
      by discriminate.
    rewrite (set_general_if_other _ _ _ _ "identification_file" H3)
      by discriminate.
    rewrite (set_general_if_other _ _ _ _ "identification_file" H2)
      by discriminate.
    now apply getitem2_setitem2_same in H1.
  - rewrite (set_general_if_other _ _ _ _ "mgf_file" H4) by discriminate.
    rewrite (set_general_if_other _ _ _ _ "mgf_file" H3) by discriminate.
    now apply (set_general_if_same _ _ _ _ H2).
  - intros Hlvl.
    rewrite (set_general_if_other _ _ _ _ "log_level" H4) by discriminate.
    now apply (set_general_if_same _ _ _ _ H3).
  - intros Hout. now apply (set_general_if_same _ _ _ _ H4).
  - intros k Hk. unfold cli_keys in Hk. simpl in Hk.
    rewrite (set_general_if_other _ _ _ _ k H4) by (intros ->; tauto).
    rewrite (set_general_if_other _ _ _ _ k H3) by (intros ->; tauto).
    rewrite (set_general_if_other _ _ _ _ k H2) by (intros ->; tauto).
    apply (getitem2_setitem2_other _ _ _ _ _ k H1). intros ->. tauto.
  - intros sec Hsec.
    rewrite (set_general_if_sections _ _ _ _ sec H4 Hsec).
    rewrite (set_general_if_sections _ _ _ _ sec H3 Hsec).
    rewrite (set_general_if_sections _ _ _ _ sec H2 Hsec).
    apply (getitem_setitem2_other _ _ _ _ _ sec H1 Hsec).
Qed.

Lemma command_line_overrides_file_witness :
  general_value
    (parse_config lab_shell
       (lab_arguments "data/psms.tsv" "config.json" (Some "out")) lab_session)
    "mgf_file" = inr (VStr "data/psms.mgf") /\
  general_value
    (parse_config lab_shell
       (lab_arguments "data/psms.tsv" "config.json" (Some "out")) lab_session)
    "output_filename" = inr (VStr "out") /\
  general_value
    (parse_config lab_shell
       (lab_arguments "data/psms.tsv" "config.json" (Some "out")) lab_session)
    "pipeline" = getitem2 (maxquant_config false) "general" "pipeline".
Proof.
  destruct (command_line_overrides_file lab_shell
              (lab_arguments "data/psms.tsv" "config.json" (Some "out"))
              lab_session _ _ eq_refl)
    as (raw & Hraw & _ & Hmgf & _ & Hout & Hframe & _).
  split; [exact Hmgf|]. split.
  - apply Hout. discriminate.
  - injection Hraw as <-. apply Hframe. simpl. intuition discriminate.
Defined.

(** X19: when the identification file does not exist the program ends with
    [FileNotFoundError] (exit status 1) right after looking for it:
    nothing is created, the configuration file is not opened, and
    nothing of [main] runs. *)
Theorem missing_identification_file_stops_program c t args s :
  setup_logging c (log_level args) = inr tt ->
  mem (path_str (path_of (identification_file args))) (files (fs (disk s)))
  = false ->
  program c t args s
  = (inl (FileNotFoundError (identification_file args)),
     {| disk := {| fs := fs (disk s);
                   trace := (trace (disk s)
                               ++ [IoIsFile
                                     (path_str
                                        (path_of (identification_file args)))])%list |};
        happened := happened s |}).
Proof.
  intros Hlog Hmem. unfold program. apply bind_inl. unfold parse_config.
  erewrite bind_inr by (unfold lift; rewrite Hlog; reflexivity).
  erewrite bind_inr by (apply on_disk_run; reflexivity).
  cbn [fs]. now rewrite Hmem.
Qed.

Lemma missing_identification_file_stops_program_witness :
  program lab_shell bare_tools
    (lab_arguments "data/none.tsv" "config.json" (Some "out")) lab_session
  = (inl (FileNotFoundError "data/none.tsv"),
     {| disk := {| fs := fs lab_world; trace := [IoIsFile "data/none.tsv"] |};
        happened := [] |}).
Proof.
  exact (missing_identification_file_stops_program lab_shell bare_tools
           (lab_arguments "data/none.tsv" "config.json" (Some "out"))
           lab_session eq_refl eq_refl).
Defined.





